(** * Places service: filter composition and the three read operations

    A shallow embedding of [app/services/places_service.py] together with a
    model of the part of the relational store the service relies on: the
    [places] table as a list of rows, the JSON sub-field operator [->>], the
    text-to-integer and text-to-boolean casts, three-valued conditions, and
    the grouped counts of the two aggregate operations.

    Conventions of the model:
    - strings are byte strings; [float] and the two casts are modelled on
      ASCII text, the integer cast on decimal literals;
    - a Python [float] and a coordinate are the rational a binary64 value
      denotes; [float] rounds a decimal literal to the nearest binary64;
    - the conditions of a [WHERE] clause are evaluated in the order of the
      statement and a failed cast fails the whole statement;
    - a table is scanned in list order: [LIMIT 1] returns the first row that
      qualifies; grouped rows come out in byte order of their key. *)

From Stdlib Require Import ZArith QArith Ascii String List Bool Lia.
From stdpp Require Import base option list gmap strings pretty sorting.

Local Open Scope string_scope.
Local Open Scope list_scope.

(** ** Outcomes

    Python exceptions and store errors are values: a call either returns or
    raises. [ValueError] is what [build_places_query] and [get_districts]
    raise themselves; [DatabaseError] stands for the psycopg exception that
    [cur.execute] raises when the store rejects a statement at run time (a
    failed cast). *)

Inductive error :=
  | ValueError (msg : string)
  | DatabaseError (msg : string).

Inductive result (A : Type) :=
  | Ok (a : A)
  | Err (e : error).
Arguments Ok {A} a.
Arguments Err {A} e.

#[global] Instance result_ret : MRet result := λ A a, Ok a.

#[global] Instance result_bind : MBind result := λ A B k r,
  match r with
  | Ok a => k a
  | Err e => Err e
  end.

Definition is_ok {A} (r : result A) : bool :=
  match r with Ok _ => true | Err _ => false end.

(** ** Characters *)

Module Chars.

Definition code (c : ascii) : N := N_of_ascii c.

Definition is_digit (c : ascii) : bool :=
  ((48 <=? code c) && (code c <=? 57))%N.

Definition digit_value (c : ascii) : Z := Z.of_N (code c) - 48.

(** ASCII [str.lower] / [pg_tolower]. *)
Definition lower (c : ascii) : ascii :=
  if ((65 <=? code c) && (code c <=? 90))%N
  then ascii_of_N (code c + 32) else c.

(** Whitespace as [str.strip] sees it on ASCII text: TAB, LF, VT, FF, CR,
    the four separators FS, GS, RS, US, and the space. *)
Definition py_space (c : ascii) : bool :=
  (((9 <=? code c) && (code c <=? 13))
   || ((28 <=? code c) && (code c <=? 31))
   || (code c =? 32))%N.

(** Whitespace as C's [isspace] sees it: space, TAB, LF, VT, FF, CR. *)
Definition c_space (c : ascii) : bool :=
  (((9 <=? code c) && (code c <=? 13)) || (code c =? 32))%N.

Fixpoint drop_while (p : ascii → bool) (l : list ascii) : list ascii :=
  match l with
  | [] => []
  | c :: t => if p c then drop_while p t else l
  end.

Definition strip (p : ascii → bool) (l : list ascii) : list ascii :=
  rev (drop_while p (rev (drop_while p l))).

Definition of_string : string → list ascii := list_ascii_of_string.
Definition to_string : list ascii → string := string_of_list_ascii.

(** Value of a run of decimal digits, most significant first. *)
Definition digits_value (l : list ascii) : Z :=
  fold_left (λ acc c, 10 * acc + digit_value c)%Z l 0%Z.

Definition eqb (a b : list ascii) : bool :=
  String.eqb (to_string a) (to_string b).

End Chars.

(** ** Python values *)

(** A Python [float]: a finite binary64 value, carried as the rational it
    denotes, or one of the three special values. *)
Inductive pyfloat :=
  | Finite (q : Q)
  | PosInf
  | NegInf
  | NaN.

Module PyFloat.

Definition neg (f : pyfloat) : pyfloat :=
  match f with
  | Finite q => Finite (- q)
  | PosInf => NegInf
  | NegInf => PosInf
  | NaN => NaN
  end.

(** [n / d] rounded to the nearest integer, ties to even ([0 < d]). *)
Definition round_half_even (n d : Z) : Z :=
  let q := (n / d)%Z in
  match (2 * (n mod d) ?= d)%Z with
  | Lt => q
  | Eq => if Z.even q then q else (q + 1)%Z
  | Gt => (q + 1)%Z
  end.

(** The binary64 value nearest to the non-negative rational [n / d]
    (ties to even), as the correctly rounded conversion of [float(str)]
    produces it; values that round to [2^1024] or more overflow to
    infinity, values below the normal range are rounded on the subnormal
    grid [2^-1074]. *)
Definition binary64_of_ratio (n d : Z) : pyfloat :=
  if (n =? 0)%Z then Finite 0 else
  let e0 := (Z.log2 n - Z.log2 d)%Z in
  let e := if (n * 2 ^ Z.max 0 (- e0) <? d * 2 ^ Z.max 0 e0)%Z
           then (e0 - 1)%Z else e0 in
  let sh := Z.max (e - 52) (-1074) in
  let m := round_half_even (n * 2 ^ Z.max 0 (- sh)) (d * 2 ^ Z.max 0 sh) in
  if ((971 <? sh) || ((sh =? 971) && (m =? 2 ^ 53)))%Z then PosInf
  else Finite (Qred (inject_Z m * Qpower 2 sh)).

(** [digitpart ::= digit (["_"] digit)*]: the digits of the longest
    digit part at the front of the input, and what follows it. *)
Fixpoint digitpart_rest (l : list ascii) : list ascii * list ascii :=
  match l with
  | c :: t =>
      if Chars.is_digit c then
        let '(ds, r) := digitpart_rest t in (c :: ds, r)
      else if Ascii.eqb c "_" then
        match t with
        | c' :: _ =>
            if Chars.is_digit c' then digitpart_rest t else ([], l)
        | [] => ([], l)
        end
      else ([], l)
  | [] => ([], [])
  end.

Definition digitpart (l : list ascii) : list ascii * list ascii :=
  match l with
  | c :: _ => if Chars.is_digit c then digitpart_rest l else ([], l)
  | [] => ([], [])
  end.

(** [exponent ::= ("e" | "E") [sign] digitpart], then end of input. *)
Definition exponent (l : list ascii) : option Z :=
  match l with
  | [] => Some 0%Z
  | c :: t =>
      if Ascii.eqb (Chars.lower c) "e" then
        let '(sgn, t') :=
          match t with
          | "+"%char :: r => (1%Z, r)
          | "-"%char :: r => ((-1)%Z, r)
          | _ => (1%Z, t)
          end in
        match digitpart t' with
        | ((_ :: _) as ds, []) => Some (sgn * Chars.digits_value ds)%Z
        | _ => None
        end
      else None
  end.

(** [floatnumber ::= ([digitpart] "." digitpart | digitpart ["."]) [exponent]]:
    the decimal mantissa and the power of ten that scales it. *)
Definition floatnumber (l : list ascii) : option (Z * Z) :=
  let '(ip, r) := digitpart l in
  let '(fp, r') :=
    match r with
    | "."%char :: t => digitpart t
    | _ => ([], r)
    end in
  match ip, fp with
  | [], [] => None
  | _, _ =>
      e ← exponent r';
      Some (Chars.digits_value (ip ++ fp), (e - Z.of_nat (length fp))%Z)
  end.

Definition of_decimal (m e : Z) : pyfloat :=
  if (0 <=? e)%Z then binary64_of_ratio (m * 10 ^ e) 1
  else binary64_of_ratio m (10 ^ (- e)).

(** The builtin [float(s)] on ASCII text: surrounding whitespace is
    stripped, then an optional sign and [inf], [infinity], [nan] (any
    letter case) or a decimal [floatnumber]. [None] is [ValueError]. *)
Definition float (s : string) : option pyfloat :=
  let cs := Chars.strip Chars.py_space (Chars.of_string s) in
  let '(negative, body) :=
    match cs with
    | "+"%char :: r => (false, r)
    | "-"%char :: r => (true, r)
    | _ => (false, cs)
    end in
  let signed f := if negative then neg f else f in
  let word := Chars.to_string (map Chars.lower body) in
  if String.eqb word "inf" || String.eqb word "infinity"
  then Some (signed PosInf)
  else if String.eqb word "nan" then Some NaN
  else '(m, e) ← floatnumber body; Some (signed (of_decimal m e)).

(** IEEE comparison [x < y]: false as soon as a NaN is involved. *)
Definition ltb (x y : pyfloat) : bool :=
  match x, y with
  | NaN, _ | _, NaN => false
  | _, NegInf | PosInf, _ => false
  | NegInf, _ | _, PosInf => true
  | Finite a, Finite b => negb (Qle_bool b a)
  end.

Definition min (x y : pyfloat) : pyfloat := if ltb y x then y else x.
Definition max (x y : pyfloat) : pyfloat := if ltb x y then y else x.

End PyFloat.

(** ** The persisted data *)

(** A JSON value of the [properties] column. Integers, strings, booleans and
    null are kept apart because the casts of the queries tell them apart;
    any other value (a number with a fraction, an array, an object) is
    carried by the text that the [->>] operator yields for it. *)
Inductive json :=
  | JNull
  | JBool (b : bool)
  | JInt (n : Z)
  | JString (s : string)
  | JOther (text : string).

(** A row of the [places] table as the loader writes it: [geom] is a point
    (never null), [properties] a JSON object. *)
Module Place.

Record row := {
  id : string;
  name : string;
  address : option string;
  category : string;
  city : string;
  lng : Q;
  lat : Q;
  properties : gmap string json;
}.

End Place.

(** ** The store's scalar operations *)

Module Sql.

(** The text of a JSON value under [->>]; JSON null gives SQL NULL. *)
Definition json_text (j : json) : option string :=
  match j with
  | JNull => None
  | JBool b => Some (if b then "true" else "false")
  | JInt n => Some (pretty n)
  | JString s => Some s
  | JOther t => Some t
  end.

(** [properties->>'key']: NULL when the key is missing. *)
Definition field (props : gmap string json) (key : string) : option string :=
  props !! key ≫= json_text.

Definition invalid_integer : error :=
  DatabaseError "invalid input syntax for type integer".
Definition integer_out_of_range : error :=
  DatabaseError "value is out of range for type integer".
Definition invalid_boolean : error :=
  DatabaseError "invalid input syntax for type boolean".

Fixpoint take_digits (l : list ascii) : list ascii * list ascii :=
  match l with
  | c :: t =>
      if Chars.is_digit c then let '(ds, r) := take_digits t in (c :: ds, r)
      else ([], l)
  | [] => ([], [])
  end.

(** [text::int]: leading whitespace, an optional sign, at least one
    decimal digit, trailing whitespace; the value must fit 32 bits. *)
Definition cast_int4 (t : string) : result Z :=
  let cs := Chars.drop_while Chars.c_space (Chars.of_string t) in
  let '(sgn, body) :=
    match cs with
    | "-"%char :: r => ((-1)%Z, r)
    | "+"%char :: r => (1%Z, r)
    | _ => (1%Z, cs)
    end in
  let '(ds, rest) := take_digits body in
  match ds, Chars.drop_while Chars.c_space rest with
  | _ :: _, [] =>
      let v := (sgn * Chars.digits_value ds)%Z in
      if ((-2147483648 <=? v) && (v <=? 2147483647))%Z then Ok v
      else Err integer_out_of_range
  | _, _ => Err invalid_integer
  end.

(** [w] is a non-empty prefix of [word]. *)
Definition abbreviates (w : list ascii) (word : string) : bool :=
  match w with
  | [] => false
  | _ => String.prefix (Chars.to_string w) word
  end.

(** [text::boolean]: surrounding whitespace is dropped and letter case
    ignored; accepted are the non-empty prefixes of [true], [false],
    [yes], [no], the words [on], [of], [off], and the single digits [1]
    and [0]. *)
Definition cast_bool (t : string) : result bool :=
  let w := map Chars.lower (Chars.strip Chars.c_space (Chars.of_string t)) in
  if abbreviates w "true" || abbreviates w "yes"
     || Chars.eqb w (Chars.of_string "on") || Chars.eqb w (Chars.of_string "1")
  then Ok true
  else if abbreviates w "false" || abbreviates w "no"
     || Chars.eqb w (Chars.of_string "of") || Chars.eqb w (Chars.of_string "off")
     || Chars.eqb w (Chars.of_string "0")
  then Ok false
  else Err invalid_boolean.

End Sql.

(** ** Statements and their evaluation *)

(** A value bound to a positional placeholder: psycopg sends a Python [str]
    as text and a Python [float] as a double. *)
Inductive param :=
  | PStr (s : string)
  | PFloat (f : pyfloat).

Inductive column :=
  | ColCategory
  | ColCity.

(** Text-valued expressions of the statements. [Placeholder i] is the
    [i]-th [%s] of the statement, counted from zero. *)
Inductive text_expr :=
  | Column (c : column)
  | Field (key : string)
  | Literal (s : string)
  | Placeholder (i : nat).

(** Conditions of the statements:
    - [IntGt t n] is [(t)::int > n] and [IntEq t n] is [(t)::int = n];
    - [IsTrue t] is [(t)::boolean = true];
    - [PointWithin i] is [ST_Within(geom, ST_MakeEnvelope(%s, %s, %s, %s, 4326))]
      with the four placeholders [i .. i+3]. *)
Inductive cond :=
  | IsNull (t : text_expr)
  | IsNotNull (t : text_expr)
  | TextEq (a b : text_expr)
  | TextNe (a b : text_expr)
  | TextIn (a : text_expr) (l : list text_expr)
  | IntGt (t : text_expr) (n : Z)
  | IntEq (t : text_expr) (n : Z)
  | IsTrue (t : text_expr)
  | PointWithin (i : nat)
  | Or (a b : cond)
  | Not (a : cond).

Module Store.

Definition bad_parameter : error :=
  DatabaseError "parameter missing or of the wrong type".

(** SQL's three truth values: [None] is NULL (unknown). *)
Abbreviation truth := (option bool).

(** [NOT]: NULL stays NULL. *)
Definition not3 (v : truth) : truth := negb <$> v.

(** [a OR b] once neither operand raised. *)
Definition or3 (va vb : truth) : truth :=
  match va, vb with
  | Some true, _ | _, Some true => Some true
  | Some false, Some false => Some false
  | _, _ => None
  end.

Definition text (params : list param) (r : Place.row) (t : text_expr)
  : result (option string) :=
  match t with
  | Column ColCategory => Ok (Some (Place.category r))
  | Column ColCity => Ok (Some (Place.city r))
  | Field key => Ok (Sql.field (Place.properties r) key)
  | Literal s => Ok (Some s)
  | Placeholder i =>
      match params !! i with
      | Some (PStr s) => Ok (Some s)
      | _ => Err bad_parameter
      end
  end.

Definition double (params : list param) (i : nat) : result pyfloat :=
  match params !! i with
  | Some (PFloat f) => Ok f
  | _ => Err bad_parameter
  end.

(** Comparison of two texts: NULL as soon as one side is NULL. *)
Definition text_eq (a b : option string) : truth :=
  x ← a; y ← b; Some (String.eqb x y).

(** [a IN (l)]: true when some element equals [a]; otherwise NULL when a
    NULL was involved, else false. *)
Definition text_in (a : option string) (l : list (option string)) : truth :=
  let tests := map (text_eq a) l in
  if existsb (λ v, bool_decide (v = Some true)) tests then Some true
  else if existsb (λ v, bool_decide (v = None)) tests then None
  else Some false.

(** [ST_Within(point, envelope)]: a point is within a polygon when it lies
    in the polygon's interior; a point on the boundary is not within. The
    envelope is the rectangle spanned by the two corners. *)
Definition st_within_envelope (x y : Q) (x1 y1 x2 y2 : pyfloat) : bool :=
  PyFloat.ltb (PyFloat.min x1 x2) (Finite x)
  && PyFloat.ltb (Finite x) (PyFloat.max x1 x2)
  && PyFloat.ltb (PyFloat.min y1 y2) (Finite y)
  && PyFloat.ltb (Finite y) (PyFloat.max y1 y2).

Fixpoint texts (params : list param) (r : Place.row) (l : list text_expr)
  : result (list (option string)) :=
  match l with
  | [] => Ok []
  | t :: ts => v ← text params r t; vs ← texts params r ts; Ok (v :: vs)
  end.

Definition int_test (p : Z → bool) (v : option string) : result truth :=
  match v with
  | None => Ok None
  | Some s => n ← Sql.cast_int4 s; Ok (Some (p n))
  end.

(** The value of a condition on one row. A cast that fails raises; [OR]
    evaluates its operands from left to right and stops at the first one
    that is true. *)
Fixpoint truth_of (params : list param) (r : Place.row) (c : cond)
  : result truth :=
  match c with
  | IsNull t => v ← text params r t; Ok (Some (bool_decide (v = None)))
  | IsNotNull t => v ← text params r t; Ok (Some (bool_decide (v ≠ None)))
  | TextEq a b =>
      x ← text params r a; y ← text params r b; Ok (text_eq x y)
  | TextNe a b =>
      x ← text params r a; y ← text params r b; Ok (not3 (text_eq x y))
  | TextIn a l =>
      x ← text params r a; ys ← texts params r l; Ok (text_in x ys)
  | IntGt t n => v ← text params r t; int_test (λ k, n <? k)%Z v
  | IntEq t n => v ← text params r t; int_test (λ k, k =? n)%Z v
  | IsTrue t =>
      v ← text params r t;
      match v with
      | None => Ok None
      | Some s => b ← Sql.cast_bool s; Ok (Some b)
      end
  | PointWithin i =>
      x1 ← double params i; y1 ← double params (i + 1);
      x2 ← double params (i + 2); y2 ← double params (i + 3);
      Ok (Some (st_within_envelope (Place.lng r) (Place.lat r) x1 y1 x2 y2))
  | Or a b =>
      va ← truth_of params r a;
      match va with
      | Some true => Ok (Some true)
      | _ =>
          vb ← truth_of params r b; Ok (or3 va vb)
      end
  | Not a => va ← truth_of params r a; Ok (not3 va)
  end.

(** The [WHERE] clause is a conjunction of conditions: a row qualifies
    when every one of them is true. The conditions are evaluated in the
    order of the statement, and the first one that is false or NULL
    rejects the row without evaluating the others. *)
Fixpoint qualifies (conds : list cond) (params : list param)
    (r : Place.row) : result bool :=
  match conds with
  | [] => Ok true
  | c :: cs =>
      v ← truth_of params r c;
      match v with
      | Some true => qualifies cs params r
      | _ => Ok false
      end
  end.

(** [SELECT ... FROM places WHERE conds]: the qualifying rows in table
    order; an error on any row fails the whole statement. *)
Fixpoint select_where (conds : list cond) (params : list param)
    (table : list Place.row) : result (list Place.row) :=
  match table with
  | [] => Ok []
  | r :: rs =>
      b ← qualifies conds params r;
      rest ← select_where conds params rs;
      Ok (if b : bool then r :: rest else rest)
  end.

(** Order of nullable keys: texts in byte order, NULL after them. *)
Definition key_leb (a b : option string) : bool :=
  match a, b with
  | Some x, Some y => String.leb x y
  | _, None => true
  | None, Some _ => false
  end.

(** [SELECT key, COUNT( * ) ... GROUP BY key ORDER BY key] over the rows
    that qualified: one output row per distinct key, in key order, with
    the number of rows that carry the key. *)
Definition group_count {K} `{EqDecision K} (leb : K → K → bool)
    (keys : list K) : list (K * nat) :=
  map (λ k, (k, length (filter (eq k) keys)))
      (merge_sort (λ a b, Is_true (leb a b)) (remove_dups keys)).

End Store.

(** ** The service: [app/services/places_service.py] *)

(** The place as the API returns it. *)
Module Api.

Record place := {
  id : string;
  name : string;
  address : option string;
  lat : Q;
  lng : Q;
  category : string;
  city : string;
  properties : gmap string json;
}.

End Api.

Definition normalize_place_from_db (row : Place.row) : Api.place :=
  {| Api.id := Place.id row;
     Api.name := Place.name row;
     Api.address := Place.address row;
     Api.lat := Place.lat row;
     Api.lng := Place.lng row;
     Api.category := Place.category row;
     Api.city := Place.city row;
     Api.properties := Place.properties row |}.

(** The [category] argument: [None], a list of names, or (the branch the
    code keeps for it) a single name. *)
Inductive categories :=
  | NoCategory
  | CategoryList (l : list string)
  | CategoryStr (s : string).

(** Truth value of an optional string in an [if]: [None] and the empty
    string are false. *)
Definition truthy (o : option string) : bool :=
  match o with
  | Some s => negb (String.eqb s "")
  | None => false
  end.

(** One entry of the [conditions] list: the text appended to the statement
    and the condition the store reads in it. *)
Record clause := {
  sql : string;
  meaning : cond;
}.

(** The two lists the query builders fill in step by step. *)
Record builder := {
  conditions : list clause;
  params : list param;
}.

Definition append (c : clause) (ps : list param) (b : builder) : builder :=
  {| conditions := conditions b ++ [c]; params := params b ++ ps |}.

Module Clause.

Definition fresh : clause :=
  {| sql := "(properties->>'data_status' IS NULL OR properties->>'data_status' != 'outdated')";
     meaning := Or (IsNull (Field "data_status"))
                   (TextNe (Field "data_status") (Literal "outdated")) |}.

(** [category IN (%s,...,%s)] with [n] placeholders, the first of which
    is placeholder [i] of the statement. *)
Definition category_in (i n : nat) : clause :=
  {| sql := "category IN (" +:+ String.concat "," (replicate n "%s") +:+ ")";
     meaning := TextIn (Column ColCategory) (map Placeholder (seq i n)) |}.

Definition category_eq (i : nat) : clause :=
  {| sql := "category = %s";
     meaning := TextEq (Column ColCategory) (Placeholder i) |}.

Definition city_eq (i : nat) : clause :=
  {| sql := "city = %s";
     meaning := TextEq (Column ColCity) (Placeholder i) |}.

Definition within (i : nat) : clause :=
  {| sql := "ST_Within(geom, ST_MakeEnvelope(%s, %s, %s, %s, 4326))";
     meaning := PointWithin i |}.

Definition diaper_present : clause :=
  {| sql := "(properties->>'diaper_table_count')::int > 0";
     meaning := IntGt (Field "diaper_table_count") 0 |}.

Definition diaper_absent : clause :=
  {| sql := "((properties->>'diaper_table_count')::int = 0 OR properties->>'diaper_table_count' IS NULL)";
     meaning := Or (IntEq (Field "diaper_table_count") 0)
                   (IsNull (Field "diaper_table_count")) |}.

Definition any_parking : cond :=
  Or (IsTrue (Field "has_parking"))
     (Or (IsTrue (Field "parking")) (IntGt (Field "parking_count") 0)).

Definition parking_present : clause :=
  {| sql := "
                (
                    (properties->>'has_parking')::boolean = true
                    OR (properties->>'parking')::boolean = true
                    OR (properties->>'parking_count')::int > 0
                )
            ";
     meaning := any_parking |}.

Definition parking_absent : clause :=
  {| sql := "
                NOT (
                    (properties->>'has_parking')::boolean = true
                    OR (properties->>'parking')::boolean = true
                    OR (properties->>'parking_count')::int > 0
                )
            ";
     meaning := Not any_parking |}.

Definition district_not_null : clause :=
  {| sql := "properties->>'district' IS NOT NULL";
     meaning := IsNotNull (Field "district") |}.

Definition city_name_not_null : clause :=
  {| sql := "properties->>'city_name' IS NOT NULL";
     meaning := IsNotNull (Field "city_name") |}.

End Clause.

(** [if not include_outdated: conditions.append(...)] *)
Definition freshness_filter (include_outdated : bool) (b : builder) : builder :=
  if include_outdated then b else append Clause.fresh [] b.

(** The category block, which the three operations share word for word. *)
Definition category_filter (category : categories) (b : builder) : builder :=
  match category with
  | CategoryList ((_ :: _) as l) =>
      append (Clause.category_in (length (params b)) (length l)) (PStr <$> l) b
  | CategoryStr s =>
      if String.eqb s "" then b
      else append (Clause.category_eq (length (params b))) [PStr s] b
  | _ => b
  end.

Definition city_filter (city : option string) (b : builder) : builder :=
  match city with
  | Some c =>
      if truthy city then append (Clause.city_eq (length (params b))) [PStr c] b
      else b
  | None => b
  end.

(** [str.split(sep)] for a one-character separator. *)
Fixpoint split_chars (sep : ascii) (l : list ascii) : list (list ascii) :=
  match l with
  | [] => [[]]
  | c :: t =>
      if Ascii.eqb c sep then [] :: split_chars sep t
      else match split_chars sep t with
           | h :: r => (c :: h) :: r
           | [] => [[c]]
           end
  end.

Definition split (sep : ascii) (s : string) : list string :=
  Chars.to_string <$> split_chars sep (Chars.of_string s).

Definition bbox_error (bbox : string) : error :=
  ValueError ("bbox 格式錯誤: " +:+ bbox +:+ "，應為 minLng,minLat,maxLng,maxLat").

(** The [try] block of the bounding box: four parts, each a [float]; the
    [ValueError] of a wrong count and the one of [float] are both caught
    and raised again with the raw value in the message. *)
Definition parse_bbox (bbox : string) : result (list pyfloat) :=
  match split "," bbox with
  | [_; _; _; _] as parts =>
      match mapM PyFloat.float parts with
      | Some fs => Ok fs
      | None => Err (bbox_error bbox)
      end
  | _ => Err (bbox_error bbox)
  end.

Definition bbox_filter (bbox : option string) (b : builder) : result builder :=
  match bbox with
  | Some s =>
      if truthy bbox then
        fs ← parse_bbox s;
        Ok (append (Clause.within (length (params b))) (PFloat <$> fs) b)
      else Ok b
  | None => Ok b
  end.

Definition diaper_filter (has_diaper_table : option string) (b : builder) : builder :=
  match has_diaper_table with
  | Some f =>
      if String.eqb f "1" then append Clause.diaper_present [] b
      else if String.eqb f "0" then append Clause.diaper_absent [] b
      else b
  | None => b
  end.

Definition parking_filter (has_parking : option string) (b : builder) : builder :=
  match has_parking with
  | Some f =>
      if String.eqb f "1" then append Clause.parking_present [] b
      else if String.eqb f "0" then append Clause.parking_absent [] b
      else b
  | None => b
  end.

(** [if conditions: base_query += " AND " + " AND ".join(conditions)] *)
Definition with_conditions (base_query : string) (cs : list clause) : string :=
  match cs with
  | [] => base_query
  | _ => base_query +:+ " AND " +:+ String.concat " AND " (sql <$> cs)
  end.

Definition places_base_query : string := "
        SELECT 
            id,
            name,
            address,
            category,
            city,
            ST_Y(geom) AS lat,
            ST_X(geom) AS lng,
            properties
        FROM places
        WHERE 1=1
    ".

(** The conditions and parameters that [build_places_query] accumulates. *)
Definition places_builder (category : categories) (city bbox : option string)
    (has_diaper_table has_parking : option string) (include_outdated : bool)
  : result builder :=
  let b := {| conditions := []; params := [] |} in
  let b := freshness_filter include_outdated b in
  let b := category_filter category b in
  let b := city_filter city b in
  b ← bbox_filter bbox b;
  let b := diaper_filter has_diaper_table b in
  let b := parking_filter has_parking b in
  Ok b.

Definition build_places_query (category : categories) (city bbox : option string)
    (has_diaper_table has_parking : option string) (include_outdated : bool)
  : result (string * list param) :=
  b ← places_builder category city bbox has_diaper_table has_parking
        include_outdated;
  Ok (with_conditions places_base_query (conditions b), params b).

(** The three results. *)
Record places_result := {
  items : list Api.place;
  count : nat;
}.

Module City.

Record aggregate := {
  code : string;
  name : string;
  count : nat;
}.

End City.

Module District.

Record aggregate := {
  name : string;
  count : nat;
}.

End District.

Record districts_result := {
  city : string;
  districts : list District.aggregate;
}.

(** [get_places]: build the statement (a malformed box raises before the
    store is reached), run it, normalise every row. *)
Definition get_places (category : categories) (city bbox : option string)
    (has_diaper_table has_parking : option string) (include_outdated : bool)
    (table : list Place.row) : result places_result :=
  b ← places_builder category city bbox has_diaper_table has_parking
        include_outdated;
  rows ← Store.select_where (meaning <$> conditions b) (params b) table;
  let places := normalize_place_from_db <$> rows in
  Ok {| items := places; count := length places |}.

Definition cities_base_query : string := "
        SELECT 
            city,
            COUNT(*) as count
        FROM places
        WHERE 1=1
    ".

Definition cities_builder (category : categories) (include_outdated : bool)
  : builder :=
  let b := {| conditions := []; params := [] |} in
  let b := freshness_filter include_outdated b in
  category_filter category b.

Definition build_cities_query (category : categories) (include_outdated : bool)
  : string * list param :=
  let b := cities_builder category include_outdated in
  (with_conditions cities_base_query (conditions b)
     +:+ " GROUP BY city ORDER BY city", params b).

Definition name_query : string := "
                    SELECT properties->>'city_name' as city_name
                    FROM places
                    WHERE city = %s
                    AND properties->>'city_name' IS NOT NULL
                    LIMIT 1
                ".

(** [cur.execute(name_query, [city_code]); cur.fetchone()]: the first row,
    in table order, of the given city with a non-null [city_name]; the
    result row carries that text. *)
Definition lookup_city_name (city_code : string) (table : list Place.row)
  : result (option (option string)) :=
  rows ← Store.select_where
           [meaning (Clause.city_eq 0); meaning Clause.city_name_not_null]
           [PStr city_code] table;
  Ok ((λ r, Sql.field (Place.properties r) "city_name") <$> head rows).

(** The body of the loop over the grouped rows. *)
Definition city_aggregate (table : list Place.row) (row : string * nat)
  : result City.aggregate :=
  let city_code := row.1 in
  name_row ← lookup_city_name city_code table;
  let city_name :=
    match name_row with
    | Some found => if truthy found then default city_code found else city_code
    | None => city_code
    end in
  Ok {| City.code := city_code; City.name := city_name; City.count := row.2 |}.

Fixpoint for_each {A B} (f : A → result B) (l : list A) : result (list B) :=
  match l with
  | [] => Ok []
  | a :: t => b ← f a; bs ← for_each f t; Ok (b :: bs)
  end.

Definition get_cities (category : categories) (include_outdated : bool)
    (table : list Place.row) : result (list City.aggregate) :=
  let b := cities_builder category include_outdated in
  selected ← Store.select_where (meaning <$> conditions b) (params b) table;
  let rows := Store.group_count String.leb (Place.city <$> selected) in
  for_each (city_aggregate table) rows.

Definition districts_base_query : string := "
        SELECT 
            properties->>'district' as district,
            COUNT(*) as count
        FROM places
        WHERE city = %s
    ".

(** The statement of [get_districts]: the city comes first, both in the
    text and in the parameters, and the district condition last. *)
Definition districts_builder (city : string) (category : categories)
    (include_outdated : bool) : builder :=
  let b := {| conditions := []; params := [PStr city] |} in
  let b := freshness_filter include_outdated b in
  category_filter category b.

Definition build_districts_query (city : string) (category : categories)
    (include_outdated : bool) : string * list param :=
  let b := districts_builder city category include_outdated in
  (with_conditions districts_base_query (conditions b)
     +:+ " AND properties->>'district' IS NOT NULL"
     +:+ " GROUP BY properties->>'district' ORDER BY properties->>'district'",
   params b).

Definition districts_where (b : builder) : list cond :=
  meaning (Clause.city_eq 0)
    :: (meaning <$> conditions b) ++ [meaning Clause.district_not_null].

(** [if district_name: districts.append(...)] *)
Definition district_aggregate (row : option string * nat)
  : option District.aggregate :=
  if truthy row.1
  then Some {| District.name := default "" row.1; District.count := row.2 |}
  else None.

Definition get_districts (city : string) (category : categories)
    (include_outdated : bool) (table : list Place.row)
  : result districts_result :=
  if String.eqb city "" then Err (ValueError "city 參數必需") else
  let b := districts_builder city category include_outdated in
  selected ← Store.select_where (districts_where b) (params b) table;
  let rows :=
    Store.group_count Store.key_leb
      ((λ r, Sql.field (Place.properties r) "district") <$> selected) in
  Ok {| city := city; districts := omap district_aggregate rows |}.

(** ** The transport layer: [app/main.py] *)

(** The body of an [HTTPException]. *)
Record http_error := {
  status_code : nat;
  error_code : string;
  message : string;
}.

(** The [except] clauses of [api_places] that an exception of [get_places]
    reaches: a [ValueError] is answered with 400 [bad_bbox] and the text of
    the exception, any other exception with 500 [internal_error]. *)
Definition api_places_except (e : error) : http_error :=
  match e with
  | ValueError msg =>
      {| status_code := 400; error_code := "bad_bbox"; message := msg |}
  | DatabaseError msg =>
      {| status_code := 500; error_code := "internal_error";
         message := "未預期的伺服器錯誤: " +:+ msg |}
  end.

(** [api_places] once the data file check has passed. *)
Definition api_places (category : categories) (city bbox : option string)
    (has_diaper_table has_parking : option string) (include_outdated : bool)
    (table : list Place.row) : http_error + places_result :=
  match get_places category city bbox has_diaper_table has_parking
          include_outdated table with
  | Ok result => inr result
  | Err e => inl (api_places_except e)
  end.

(** ** The transport layer in full: [app/main.py]

    [API_KEY] and [DATA_FILE] come from the configuration and the text of
    an [HTTPException] from the web framework: they are arguments. *)

Module Main.


(** The exception raised inside the [try] block when the data file is
    missing. *)
Definition missing_data (DATA_FILE : string) : http_error :=
  {| status_code := 404; error_code := "missing_data";
     message := "資料檔案不存在: " +:+ DATA_FILE |}.

(** The last handler, [except Exception]. *)
Definition internal_error (text : string) : http_error :=
  {| status_code := 500; error_code := "internal_error";
     message := "未預期的伺服器錯誤: " +:+ text |}.


(** The body of an endpoint: the data file check, raised inside the [try]
    block and therefore caught by its last handler, then the call of the
    service with the handlers [except_] of the endpoint. *)
Definition endpoint {A} (http_text : http_error → string)
    (DATA_FILE : string) (data_file_exists : bool)
    (except_ : error → http_error) (call : result A) : http_error + A :=
  if negb data_file_exists
  then inl (internal_error (http_text (missing_data DATA_FILE)))
  else match call with
       | Ok result => inr result
       | Err e => inl (except_ e)
       end.

Definition api_places (http_text : http_error → string) (DATA_FILE : string)
    (data_file_exists : bool) (category : categories)
    (city bbox : option string) (has_diaper_table has_parking : option string)
    (include_outdated : bool) (table : list Place.row)
  : http_error + places_result :=
  endpoint http_text DATA_FILE data_file_exists api_places_except
    (get_places category city bbox has_diaper_table has_parking
       include_outdated table).




End Main.

(** ** The loader

    [load_to_postgis.py] turns the records of the build output into rows of
    the [places] table. A record is what [json.load] returns: [None], a
    [bool], an [int], a [float], a [str], a list or a dict with string
    keys. Coordinates given as text are ASCII text, as for [float] above. *)

Module Loader.

#[warnings="-register-all"]
Inductive value :=
  | VNone
  | VBool (b : bool)
  | VInt (n : Z)
  | VFloat (f : pyfloat)
  | VStr (s : string)
  | VList (l : list value)
  | VDict (d : gmap string value).

(** The two exceptions the record functions can run into: [.get] on a value
    that is no dict, and [float] of an [int] beyond the binary64 range. *)
Inductive exception :=
  | AttributeError
  | OverflowError.

Inductive outcome (A : Type) :=
  | Returns (a : A)
  | Raises (e : exception).
Arguments Returns {A} a.
Arguments Raises {A} e.

#[global] Instance outcome_ret : MRet outcome := λ A a, Returns a.

#[global] Instance outcome_bind : MBind outcome := λ A B k r,
  match r with
  | Returns a => k a
  | Raises e => Raises e
  end.

(** [bool(v)]. *)
Definition truthy (v : value) : bool :=
  match v with
  | VNone => false
  | VBool b => b
  | VInt n => negb (n =? 0)%Z
  | VFloat (Finite q) => negb (Qeq_bool q 0)
  | VFloat _ => true
  | VStr s => negb (String.eqb s "")
  | VList l => negb (bool_decide (length l = 0))
  | VDict d => negb (bool_decide (size d = 0))
  end.

(** [a or b]. *)
Definition or_else (a b : value) : value := if truthy a then a else b.

(** [d.get(key)] on a dict. *)
Definition dict_get (d : gmap string value) (key : string) : value :=
  default VNone (d !! key).

(** [v.get(key)] on any value: only a dict has the method. *)
Definition get (v : value) (key : string) : outcome value :=
  match v with
  | VDict d => Returns (dict_get d key)
  | _ => Raises AttributeError
  end.

(** [float(n)] of an [int]: the nearest binary64, [OverflowError] beyond
    the range. *)
Definition float_of_int (n : Z) : outcome pyfloat :=
  match PyFloat.binary64_of_ratio (Z.abs n) 1 with
  | PosInf => Raises OverflowError
  | f => Returns (if (n <? 0)%Z then PyFloat.neg f else f)
  end.

Definition coerce_float (v : value) : outcome (option pyfloat) :=
  match v with
  | VNone => Returns None
  | VBool b => Returns (Some (Finite (if b then 1 else 0)))
  | VInt n => f ← float_of_int n; Returns (Some f)
  | VFloat f => Returns (Some f)
  | VStr s =>
      let v := Chars.to_string
                 (Chars.strip Chars.py_space (Chars.of_string s)) in
      if String.eqb v "" then Returns None else Returns (PyFloat.float v)
  | VList _ | VDict _ => Returns None
  end.

(** [a if a is not None else b]. *)
Definition if_not_none {A} (a b : option A) : option A :=
  match a with
  | Some _ => a
  | None => b
  end.

Definition is_none {A} (a : option A) : bool :=
  match a with
  | Some _ => false
  | None => true
  end.

Definition extract_lat_lng (place : gmap string value)
  : outcome (option pyfloat * option pyfloat) :=
  let loc := or_else (dict_get place "location") (VDict ∅) in
  lat ← get loc "lat" ≫= coerce_float;
  lng ← get loc "lng" ≫= coerce_float;
  if is_none lat || is_none lng then
    let props := or_else (dict_get place "properties") (VDict ∅) in
    lat2 ← get props "lat" ≫= coerce_float;
    lng2 ← get props "lng" ≫= coerce_float;
    Returns (if_not_none lat lat2, if_not_none lng lng2)
  else Returns (lat, lng).

(** The row [normalize_place] returns, as the upsert statement binds it. *)
Record row := {
  id : string;
  name : string;
  address : option string;
  category : string;
  city : string;
  lat : pyfloat;
  lng : pyfloat;
  properties : gmap string value;
}.

(** The test [not v or not isinstance(v, str)] of the four required
    fields, read the other way round: the text of [v] when [v] is a
    non-empty [str]. *)
Definition required (v : value) : option string :=
  match v with
  | VStr s => if truthy v then Some s else None
  | _ => None
  end.

(** [str] is the builtin [str] on values that are no [str]. *)
Definition normalize_place (str : value → string)
    (place : gmap string value) : outcome (option row) :=
  match required (dict_get place "id") with
  | None => Returns None
  | Some pid =>
  match required (dict_get place "name") with
  | None => Returns None
  | Some name =>
  match required (dict_get place "category") with
  | None => Returns None
  | Some category =>
  match required (dict_get place "city") with
  | None => Returns None
  | Some city =>
      let address :=
        match dict_get place "address" with
        | VNone => None
        | VStr s => Some s
        | v => Some (str v)
        end in
      '(lat, lng) ← extract_lat_lng place;
      match lat, lng with
      | Some lat, Some lng =>
          let props :=
            match dict_get place "properties" with
            | VNone => ∅
            | VDict d => d
            | v => {[ "_raw" := v ]}
            end in
          Returns (Some {| id := pid; name := name; address := address;
                           category := category; city := city;
                           lat := lat; lng := lng; properties := props |})
      | _, _ => Returns None
      end
  end end end end.

(** [range(0, stop, step)]: [None] is the [ValueError] of a zero step. *)
Definition range (stop : nat) (step : Z) : option (list nat) :=
  if (step =? 0)%Z then None
  else if (step <? 0)%Z then Some []
  else
    let n := Z.to_nat step in
    let count := if bool_decide (stop = 0) then 0 else (stop - 1) / n + 1 in
    Some ((λ k, k * n) <$> seq 0 count).

(** The batches the generator yields, in order. *)
Definition chunked {A} (items : list A) (n : Z) : option (list (list A)) :=
  starts ← range (length items) n;
  Some ((λ i, take (Z.to_nat n) (drop i items)) <$> (starts : list nat)).

(** The required fields of a record. *)
Definition required_fields : list string := ["id"; "name"; "category"; "city"].

(** The coordinate a source dict (the [location] or the [properties] of a
    record) gives under a key. *)
Definition coordinate (place : gmap string value) (source key : string)
  : outcome (option pyfloat) :=
  get (or_else (dict_get place source) (VDict ∅)) key ≫= coerce_float.

End Loader.

(** * Vocabulary of the properties *)

(** ** Sequencing of conditions *)

(** [and_then a b]: [b] is evaluated only when [a] returned true. *)
Definition and_then (a b : result bool) : result bool :=
  x ← a; if x : bool then b else Ok false.

(** A condition admits a row when it is true, not NULL and not false. *)
Definition holds (ps : list param) (r : Place.row) (c : cond) : result bool :=
  v ← Store.truth_of ps r c; Ok (bool_decide (v = Some true)).

(** The rows a builder's statement admits. *)
Definition admits (b : builder) (r : Place.row) : result bool :=
  Store.qualifies (meaning <$> conditions b) (params b) r.

(** ** Placeholders and the parameter list

    Every builder step appends its parameters at the end of the list and
    numbers its placeholders from the length the list had before, so the
    conditions appended earlier keep reading the same parameters. *)

Definition text_bound (ps : list param) (t : text_expr) : Prop :=
  match t with
  | Placeholder i => ∃ s, ps !! i = Some (PStr s)
  | _ => True
  end.

Fixpoint bound (ps : list param) (c : cond) : Prop :=
  match c with
  | IsNull t | IsNotNull t | IntGt t _ | IntEq t _ | IsTrue t => text_bound ps t
  | TextEq a b | TextNe a b => text_bound ps a ∧ text_bound ps b
  | TextIn a l => text_bound ps a ∧ Forall (text_bound ps) l
  | PointWithin i =>
      ∃ f, ps !! i = Some (PFloat (f 0)) ∧ ps !! (i + 1) = Some (PFloat (f 1))
         ∧ ps !! (i + 2) = Some (PFloat (f 2))
         ∧ ps !! (i + 3) = Some (PFloat (f 3))
  | Or a b => bound ps a ∧ bound ps b
  | Not a => bound ps a
  end.

(** The builder invariant. *)
Definition well_bound (b : builder) : Prop :=
  Forall (bound (params b)) (meaning <$> conditions b).

(** ** What each condition asks of a row *)

Definition data_status (r : Place.row) : option string :=
  Sql.field (Place.properties r) "data_status".

Definition district (r : Place.row) : option string :=
  Sql.field (Place.properties r) "district".

Definition city_name (r : Place.row) : option string :=
  Sql.field (Place.properties r) "city_name".

Definition fresh_match (include_outdated : bool) (r : Place.row) : bool :=
  include_outdated || bool_decide (data_status r ≠ Some "outdated").

Definition category_match (category : categories) (r : Place.row) : bool :=
  match category with
  | CategoryList ((_ :: _) as l) => bool_decide (Place.category r ∈ l)
  | CategoryStr s => String.eqb s "" || String.eqb (Place.category r) s
  | _ => true
  end.

Definition city_match (city : option string) (r : Place.row) : bool :=
  match city with
  | Some c => negb (truthy city) || String.eqb (Place.city r) c
  | None => true
  end.

Definition bbox_match (bbox : option string) (r : Place.row) : bool :=
  match bbox with
  | Some s =>
      negb (truthy bbox) ||
      match parse_bbox s with
      | Ok [x1; y1; x2; y2] =>
          Store.st_within_envelope (Place.lng r) (Place.lat r) x1 y1 x2 y2
      | _ => true
      end
  | None => true
  end.


(** The integer the diaper conditions compare: NULL when the sub-field is
    missing or JSON null; the cast raises on any other text that is not an
    integer. *)
Definition diaper_table_count (r : Place.row) : result (option Z) :=
  match Sql.field (Place.properties r) "diaper_table_count" with
  | None => Ok None
  | Some t => n ← Sql.cast_int4 t; Ok (Some n)
  end.

Definition diaper_match (flag : option string) (r : Place.row) : result bool :=
  match flag with
  | Some f =>
      if String.eqb f "1" then
        c ← diaper_table_count r;
        Ok (match c with Some n => (0 <? n)%Z | None => false end)
      else if String.eqb f "0" then
        c ← diaper_table_count r;
        Ok (match c with Some n => (n =? 0)%Z | None => true end)
      else Ok true
  | None => Ok true
  end.

Definition parking_match (flag : option string) (r : Place.row) : result bool :=
  match flag with
  | Some f =>
      if String.eqb f "1" then holds [] r Clause.any_parking
      else if String.eqb f "0" then holds [] r (Not Clause.any_parking)
      else Ok true
  | None => Ok true
  end.

(** ** What each statement asks of a row *)


(** The conditions of the list-places statement other than freshness. *)
Definition other_criteria_match (category : categories)
    (city bbox : option string) (has_diaper_table has_parking : option string)
    (r : Place.row) : result bool :=
  and_then
    (and_then
       (Ok (category_match category r && city_match city r
            && bbox_match bbox r))
       (diaper_match has_diaper_table r))
    (parking_match has_parking r).

(** The conditions of the list-places statement on one row, in the order
    of the statement: the four that cannot raise, then the two amenity
    conditions with their casts. *)
Definition places_match (category : categories) (city bbox : option string)
    (has_diaper_table has_parking : option string) (include_outdated : bool)
    (r : Place.row) : result bool :=
  and_then
    (and_then
       (Ok (fresh_match include_outdated r && category_match category r
            && city_match city r && bbox_match bbox r))
       (diaper_match has_diaper_table r))
    (parking_match has_parking r).

(** The conditions the two aggregate statements share. *)
Definition common_match (category : categories) (include_outdated : bool)
    (r : Place.row) : bool :=
  fresh_match include_outdated r && category_match category r.

(** The rows the district statement admits. *)
Definition districts_match (city : string) (category : categories)
    (io : bool) (r : Place.row) : bool :=
  String.eqb (Place.city r) city && common_match category io r
  && bool_decide (district r ≠ None).

(** ** Results *)

Definition places_of (rows : list Place.row) : places_result :=
  {| items := normalize_place_from_db <$> rows;
     count := length (normalize_place_from_db <$> rows) |}.

Definition result_of_items (l : list Api.place) : places_result :=
  {| items := l; count := length l |}.

(** A row can lend its [city_name] to the aggregate of [code]. *)
Definition named_in (code : string) (r : Place.row) : Prop :=
  Place.city r = code ∧ city_name r ≠ None.

#[global] Instance named_in_dec code r : Decision (named_in code r).
Proof. unfold named_in. apply _. Defined.

(** The name the loop of [get_cities] settles on. *)
Definition resolve_name (code : string) (table : list Place.row) : string :=
  match head (filter (named_in code) table) ≫= city_name with
  | Some t => if String.eqb t "" then code else t
  | None => code
  end.

Definition city_row (table : list Place.row) (row : string * nat)
  : City.aggregate :=
  {| City.code := row.1;
     City.name := resolve_name row.1 table;
     City.count := row.2 |}.

(** How many times a key occurs. *)
Definition occurrences {K} `{EqDecision K} (k : K) (keys : list K) : nat :=
  length (filter (eq k) keys).

(** The count that a list-cities result gives for a city code (zero when
    the code is not listed). *)
Definition city_count (out : list City.aggregate) (code : string) : nat :=
  from_option City.count 0 (head (filter (λ a, City.code a = code) out)).

(** The code and count columns of a list-cities result. *)
Definition city_counts (out : list City.aggregate) : list (string * nat) :=
  (λ a, (City.code a, City.count a)) <$> out.

(** The count that a district breakdown gives for a district name. *)
Definition district_count (out : list District.aggregate) (name : string)
  : nat :=
  from_option District.count 0
    (head (filter (λ a, District.name a = name) out)).

(** ** Rows and boxes the claims speak about *)

(** None of the three parking representations is present. *)
Definition no_parking_data (r : Place.row) : Prop :=
  Place.properties r !! "has_parking" = None
  ∧ Place.properties r !! "parking" = None
  ∧ Place.properties r !! "parking_count" = None.

Definition is_outdated (r : Place.row) : Prop :=
  Place.properties r !! "data_status" = Some (JString "outdated").

(** The count is a strictly positive integer. *)
Definition count_positive (props : gmap string json) : bool :=
  match Sql.field props "diaper_table_count" with
  | Some t => match Sql.cast_int4 t with Ok n => (0 <? n)%Z | Err _ => false end
  | None => false
  end.

(** The count is zero, or the field is missing. *)
Definition count_zero_or_missing (props : gmap string json) : bool :=
  match Sql.field props "diaper_table_count" with
  | Some t => match Sql.cast_int4 t with Ok n => (n =? 0)%Z | Err _ => false end
  | None => true
  end.

(** The field is missing or holds an integer that is not negative. *)
Definition count_natural_or_missing (props : gmap string json) : bool :=
  match Sql.field props "diaper_table_count" with
  | Some t => match Sql.cast_int4 t with Ok n => (0 <=? n)%Z | Err _ => false end
  | None => true
  end.

#[global] Instance Qlt_decision (a b : Q) : Decision (a < b)%Q.
Proof.
  destruct (Qlt_le_dec a b) as [H|H]; [by left|right].
  by apply Qle_not_lt.
Defined.

(** The point of a row lies strictly inside the rectangle. *)
Definition in_interior (x1 y1 x2 y2 : Q) (r : Place.row) : Prop :=
  (x1 < Place.lng r)%Q ∧ (Place.lng r < x2)%Q
  ∧ (y1 < Place.lat r)%Q ∧ (Place.lat r < y2)%Q.

(** The point of a row lies in the closed rectangle. *)
Definition in_closed_box (x1 y1 x2 y2 : Q) (r : Place.row) : Prop :=
  (x1 <= Place.lng r)%Q ∧ (Place.lng r <= x2)%Q
  ∧ (y1 <= Place.lat r)%Q ∧ (Place.lat r <= y2)%Q.

#[global] Instance in_interior_dec x1 y1 x2 y2 r :
  Decision (in_interior x1 y1 x2 y2 r).
Proof. unfold in_interior. apply _. Defined.


(** ** The shape of a request *)

(** What the category argument contributes to the shape of the statement:
    nothing, a membership test with [n] placeholders, or one equality. *)
Inductive category_shape :=
  | NoFilter
  | InList (n : nat)
  | Equals.

Definition shape_of (category : categories) : category_shape :=
  match category with
  | CategoryList ((_ :: _) as l) => InList (length l)
  | CategoryStr s => if String.eqb s "" then NoFilter else Equals
  | _ => NoFilter
  end.

(** The user's values, in the order of their placeholders. *)
Definition category_values (category : categories) : list string :=
  match category with
  | CategoryList ((_ :: _) as l) => l
  | CategoryStr s => if String.eqb s "" then [] else [s]
  | _ => []
  end.

Definition city_values (city : option string) : list string :=
  match city with
  | Some c => if truthy city then [c] else []
  | None => []
  end.

Definition bbox_values (bbox : option string) : list pyfloat :=
  match bbox with
  | Some s =>
      if truthy bbox
      then match parse_bbox s with Ok fs => fs | Err _ => [] end
      else []
  | None => []
  end.

(** The texts of the conditions, as a function of the shape alone. *)
Definition category_texts (sh : category_shape) : list string :=
  match sh with
  | NoFilter => []
  | InList n => [sql (Clause.category_in 0 n)]
  | Equals => [sql (Clause.category_eq 0)]
  end.

Definition shape_texts (sh : category_shape) (with_city with_bbox : bool)
    (d p : option string) (io : bool) : list string :=
  (sql <$> conditions
     (freshness_filter io {| conditions := []; params := [] |}))
  ++ category_texts sh
  ++ (if with_city then [sql (Clause.city_eq 0)] else [])
  ++ (if with_bbox then [sql (Clause.within 0)] else [])
  ++ (sql <$> conditions
        (diaper_filter d {| conditions := []; params := [] |}))
  ++ (sql <$> conditions
        (parking_filter p {| conditions := []; params := [] |})).

(** ** Requests and statement texts *)

(** A flag value that selects neither amenity condition: anything but
    ["0"] and ["1"], or no value at all. *)
Definition ineffective (flag : option string) : Prop :=
  flag ≠ Some "0" ∧ flag ≠ Some "1".

(** The freshness condition read on the properties of a returned place. *)
Definition props_fresh (props : gmap string json) : bool :=
  bool_decide (Sql.field props "data_status" ≠ Some "outdated").

(** The number of [%s] placeholders in a statement text. *)
Fixpoint count_placeholders (s : string) : nat :=
  match s with
  | String "%" (String "s" t) => S (count_placeholders t)
  | String _ t => count_placeholders t
  | EmptyString => 0
  end.

(** The text ends with a percent sign, which could pair with an [s] that
    follows it. *)
Fixpoint ends_with_percent (s : string) : bool :=
  match s with
  | String c EmptyString => Ascii.eqb c "%"
  | String _ t => ends_with_percent t
  | EmptyString => false
  end.

(** ** Rows behind the aggregates *)

Definition string_le (a b : string) : Prop := Is_true (String.leb a b).

(** The rows of a table that count for a city under the common filters. *)
Definition rows_of_city (category : categories) (io : bool) (code : string)
    (table : list Place.row) : list Place.row :=
  filter (λ r, Place.city r = code ∧ Is_true (common_match category io r))
    table.


(** The texts of a list of conditions hold this many placeholders. *)
Definition tally (texts : list string) : nat :=
  sum_list (count_placeholders <$> texts).

Definition closed_text (s : string) : Prop := ends_with_percent s = false.

(** The number of placeholders a category argument brings. *)
Definition shape_arity (sh : category_shape) : nat :=
  match sh with
  | NoFilter => 0
  | InList n => n
  | Equals => 1
  end.


(** ** Sample rows *)

Module Sample.

Definition place (i c : string) (x y : Q) (props : gmap string json)
: Place.row :=
{| Place.id := i; Place.name := i; Place.address := None;
   Place.category := "park"; Place.city := c;
   Place.lng := x; Place.lat := y; Place.properties := props |}.

(** A park with an empty [properties] object. *)
Definition bare : Place.row := place "p1" "taipei" 1 1 ∅.

(** A park on the west edge of the box [0,0,2,2]. *)
Definition on_edge : Place.row := place "p2" "taipei" 0 1 ∅.

(** A park strictly inside the box [0,0,2,2]. *)
Definition inside : Place.row := place "p3" "taipei" 1 1 ∅.

Definition words : Place.row :=
place "p4" "taipei" 1 1 {[ "diaper_table_count" := JString "many" ]}.

Definition negative : Place.row :=
place "p5" "taipei" 1 1 {[ "diaper_table_count" := JInt (-1) ]}.

Definition three_tables : Place.row :=
place "p6" "taipei" 1 1 {[ "diaper_table_count" := JInt 3 ]}.

Definition no_tables : Place.row :=
  place "p11" "taipei" 1 1 {[ "diaper_table_count" := JInt 0 ]}.

Definition two_spaces : Place.row :=
  place "p12" "taipei" 1 1 {[ "parking_count" := JInt 2 ]}.

Definition flagged : Place.row :=
  place "p13" "taipei" 1 1 {[ "has_parking" := JBool true ]}.

Definition outdated : Place.row :=
place "p7" "taipei" 1 1
  {[ "data_status" := JString "outdated"; "district" := JString "Daan" ]}.

Definition unnamed : Place.row :=
place "p8" "taipei" 1 1 {[ "city_name" := JString "" ]}.

Definition no_district : Place.row := place "p9" "taipei" 1 1 ∅.

Definition blank_district : Place.row :=
place "p10" "taipei" 1 1 {[ "district" := JString "" ]}.

End Sample.

(** * Properties *)

(** ** The conversion of [float] *)

Example float_121_50 : PyFloat.float "121.50" = Some (Finite (243 # 2)).
Proof. vm_compute. reflexivity. Qed.

Example float_rounds_to_even : PyFloat.float "9007199254740993" = Some (Finite 9007199254740992).
Proof. vm_compute. reflexivity. Qed.

Example float_overflows : PyFloat.float "1.7976931348623159e308" = Some PosInf.
Proof. vm_compute. reflexivity. Qed.

(** ** The rows of section 8 of the specification *)

Example parking_present_accepts_count_or_flag :
  get_places NoCategory None None None (Some "1") true
    [Sample.bare; Sample.two_spaces; Sample.flagged]
  = Ok (places_of [Sample.two_spaces; Sample.flagged]).
Proof. reflexivity. Qed.

Example parking_absent_rejects_count_and_flag :
  get_places NoCategory None None None (Some "0") true
    [Sample.two_spaces; Sample.flagged]
  = Ok (places_of []).
Proof. reflexivity. Qed.

Example diaper_present_wants_a_positive_count :
  get_places NoCategory None None (Some "1") None true
    [Sample.bare; Sample.three_tables; Sample.no_tables]
  = Ok (places_of [Sample.three_tables]).
Proof. reflexivity. Qed.

Example districts_need_a_city :
  get_districts "" NoCategory false [Sample.outdated]
  = Err (ValueError "city 參數必需").
Proof. reflexivity. Qed.

Example everything_is_listed_without_criteria :
  get_places NoCategory None None None None true
    [Sample.outdated; Sample.words; Sample.negative]
  = Ok (places_of [Sample.outdated; Sample.words; Sample.negative]).
Proof. reflexivity. Qed.

(** ** Sequencing of conditions *)

Section Sequencing.

Lemma and_then_true_r a : and_then a (Ok true) = a.
Proof. by destruct a as [[]|]. Qed.

Lemma and_then_assoc a b c :
  and_then (and_then a b) c = and_then a (and_then b c).
Proof. by destruct a as [[]|]. Qed.

Lemma and_then_ok a b : and_then (Ok a) (Ok b) = Ok (a && b).
Proof. by destruct a. Qed.

Lemma qualifies_cons c cs ps r :
  Store.qualifies (c :: cs) ps r
  = and_then (holds ps r c) (Store.qualifies cs ps r).
Proof.
  unfold and_then, holds. simpl.
  destruct (Store.truth_of ps r c) as [[[]|]|]; reflexivity.
Qed.

Lemma qualifies_app cs1 cs2 ps r :
  Store.qualifies (cs1 ++ cs2) ps r
  = and_then (Store.qualifies cs1 ps r) (Store.qualifies cs2 ps r).
Proof.
  induction cs1 as [|c cs1 IH].
  - reflexivity.
  - rewrite <- app_comm_cons, !qualifies_cons, IH.
    symmetry. apply and_then_assoc.
Qed.

Lemma qualifies_single c ps r : Store.qualifies [c] ps r = holds ps r c.
Proof. rewrite qualifies_cons. apply and_then_true_r. Qed.

End Sequencing.

(** ** Selection over a table *)

Section Selection.

Variables (conds : list cond) (ps : list param).

Lemma select_where_app t1 t2 :
  Store.select_where conds ps (t1 ++ t2)
  = (a ← Store.select_where conds ps t1;
     b ← Store.select_where conds ps t2; Ok (a ++ b)).
Proof.
  induction t1 as [|r t1 IH]; simpl.
  - by destruct (Store.select_where conds ps t2).
  - destruct (Store.qualifies conds ps r) as [q|]; simpl; [|done].
    rewrite IH.
    destruct (Store.select_where conds ps t1); simpl; [|done].
    destruct (Store.select_where conds ps t2); simpl; [|done].
    by destruct q.
Qed.

(** A row that the conditions reject leaves no trace in the result. *)
Lemma select_where_rejected pre r post :
  Store.qualifies conds ps r = Ok false →
  Store.select_where conds ps (pre ++ r :: post)
  = Store.select_where conds ps (pre ++ post).
Proof.
  intros H. rewrite !select_where_app. simpl. rewrite H. simpl.
  destruct (Store.select_where conds ps pre); simpl; [|done].
  by destruct (Store.select_where conds ps post).
Qed.

(** A row that the conditions admit is in every result of a table that
    holds it. *)
Lemma select_where_admitted pre r post rows :
  Store.qualifies conds ps r = Ok true →
  Store.select_where conds ps (pre ++ r :: post) = Ok rows →
  ∃ a b, Store.select_where conds ps pre = Ok a
       ∧ Store.select_where conds ps post = Ok b
       ∧ rows = a ++ r :: b.
Proof.
  intros H. rewrite select_where_app. simpl. rewrite H. simpl.
  destruct (Store.select_where conds ps pre) as [a|]; simpl; [|done].
  destruct (Store.select_where conds ps post) as [b|]; simpl; [|done].
  intros [= <-]. eauto.
Qed.

(** Every selected row comes from the table and was admitted. *)
Lemma select_where_sound t rows r :
  Store.select_where conds ps t = Ok rows → r ∈ rows →
  r ∈ t ∧ Store.qualifies conds ps r = Ok true.
Proof.
  revert rows. induction t as [|x t IH]; simpl; intros rows.
  - intros [= <-] Hin. by apply elem_of_nil in Hin.
  - destruct (Store.qualifies conds ps x) as [q|] eqn:Hq; simpl; [|done].
    destruct (Store.select_where conds ps t) as [rest|]; simpl; [|done].
    intros [= <-] Hin. destruct q.
    + apply elem_of_cons in Hin as [->|Hin].
      * split; [left|done].
      * destruct (IH rest eq_refl Hin). split; [by right|done].
    + destruct (IH rest eq_refl Hin). split; [by right|done].
Qed.

(** When no row can raise, the statement returns the admitted rows. *)
Lemma select_where_filter (f : Place.row → bool) t :
  (∀ r, r ∈ t → Store.qualifies conds ps r = Ok (f r)) →
  Store.select_where conds ps t = Ok (filter (λ r, Is_true (f r)) t).
Proof.
  induction t as [|x t IH]; intros H; simpl; [done|].
  rewrite (H x) by left. simpl.
  rewrite IH by (intros; apply H; by right). simpl.
  rewrite filter_cons. destruct (f x); by case_decide.
Qed.

End Selection.

(** ** Placeholders and the parameter list *)

Section Binding.

Variables (ps extra : list param) (r : Place.row).

Lemma text_bound_app t : text_bound ps t → text_bound (ps ++ extra) t.
Proof.
  destruct t; simpl; try done.
  intros [s Hs]. exists s. by apply lookup_app_l_Some.
Qed.

Lemma text_app t :
  text_bound ps t → Store.text (ps ++ extra) r t = Store.text ps r t.
Proof.
  destruct t; simpl; try done.
  intros [s Hs]. by rewrite (lookup_app_l_Some _ _ _ _ Hs), Hs.
Qed.

Lemma texts_app l :
  Forall (text_bound ps) l →
  Store.texts (ps ++ extra) r l = Store.texts ps r l.
Proof.
  induction 1 as [|t l Ht _ IH]; simpl; [done|].
  by rewrite text_app, IH.
Qed.

Lemma bound_app c : bound ps c → bound (ps ++ extra) c.
Proof.
  induction c; simpl; eauto using text_bound_app.
  - intros [??]; eauto using text_bound_app.
  - intros [??]; eauto using text_bound_app.
  - intros [? Hl]. split; [by apply text_bound_app|].
    eapply Forall_impl; [exact Hl|]. apply text_bound_app.
  - intros (f & H0 & H1 & H2 & H3). exists f.
    repeat split; by apply lookup_app_l_Some.
  - intros [??]; eauto.
Qed.

Lemma truth_of_app c :
  bound ps c → Store.truth_of (ps ++ extra) r c = Store.truth_of ps r c.
Proof.
  induction c; simpl.
  - intros ?. by rewrite text_app.
  - intros ?. by rewrite text_app.
  - intros [??]. by rewrite !text_app.
  - intros [??]. by rewrite !text_app.
  - intros [??]. by rewrite text_app, texts_app.
  - intros ?. by rewrite text_app.
  - intros ?. by rewrite text_app.
  - intros ?. by rewrite text_app.
  - intros (f & H0 & H1 & H2 & H3). unfold Store.double.
    rewrite (lookup_app_l_Some _ _ _ _ H0), (lookup_app_l_Some _ _ _ _ H1),
      (lookup_app_l_Some _ _ _ _ H2), (lookup_app_l_Some _ _ _ _ H3).
    by rewrite H0, H1, H2, H3.
  - intros [Ha Hb]. by rewrite IHc1, IHc2.
  - intros Ha. by rewrite IHc.
Qed.

Lemma qualifies_params_app cs :
  Forall (bound ps) cs →
  Store.qualifies cs (ps ++ extra) r = Store.qualifies cs ps r.
Proof.
  induction 1 as [|c cs Hc _ IH]; [done|].
  rewrite !qualifies_cons, IH. unfold holds. by rewrite truth_of_app.
Qed.

End Binding.

Section Appending.

Variables (b : builder) (c : clause) (extra : list param).
Hypothesis Hb : well_bound b.

Lemma admits_append r :
  admits (append c extra b) r
  = and_then (admits b r) (holds (params b ++ extra) r (meaning c)).
Proof.
  unfold admits, append. simpl.
  rewrite fmap_app, qualifies_app.
  change (meaning <$> [c]) with [meaning c].
  rewrite qualifies_single, qualifies_params_app by exact Hb. reflexivity.
Qed.

Lemma well_bound_append :
  bound (params b ++ extra) (meaning c) → well_bound (append c extra b).
Proof.
  intros Hc. unfold well_bound, append. simpl.
  rewrite fmap_app. apply Forall_app. split.
  - eapply Forall_impl; [exact Hb|]. intros ?. apply bound_app.
  - by repeat constructor.
Qed.

End Appending.

(** ** What each clause asks of a row *)

Lemma lookup_after {A} (l1 l2 : list A) (k : nat) :
  (l1 ++ l2) !! (length l1 + k) = l2 !! k.
Proof. rewrite lookup_app_r by lia. f_equal. lia. Qed.

Lemma lookup_after_0 {A} (l1 l2 : list A) :
  (l1 ++ l2) !! length l1 = l2 !! 0.
Proof. rewrite lookup_app_r by lia. f_equal. lia. Qed.

Section Clauses.

Variables (ps : list param) (r : Place.row).

Lemma holds_fresh :
  holds ps r (meaning Clause.fresh)
  = Ok (bool_decide (data_status r ≠ Some "outdated")).
Proof.
  unfold holds, data_status. simpl.
  destruct (Sql.field (Place.properties r) "data_status") as [s|]; simpl.
  - destruct (String.eqb_spec s "outdated") as [->|Hne]; simpl.
    + reflexivity.
    + rewrite bool_decide_true by congruence. reflexivity.
  - reflexivity.
Qed.

Lemma text_in_values (c : string) (l : list string) :
  Store.text_in (Some c) (Some <$> l) = Some (bool_decide (c ∈ l)).
Proof.
  unfold Store.text_in.
  assert (Hnone : existsb (λ v : option bool, bool_decide (v = None))
                    (map (Store.text_eq (Some c)) (Some <$> l)) = false).
  { induction l as [|x l IH]; [done|]. exact IH. }
  rewrite Hnone. clear Hnone.
  assert (Hsome : existsb (λ v : option bool, bool_decide (v = Some true))
                    (map (Store.text_eq (Some c)) (Some <$> l))
                  = bool_decide (c ∈ l)).
  { induction l as [|x l IH].
    - symmetry. apply bool_decide_eq_false_2, not_elem_of_nil.
    - cbn [fmap list_fmap map existsb Store.text_eq mbind option_bind].
      rewrite IH. destruct (String.eqb_spec c x) as [->|Hne].
      + symmetry. apply bool_decide_eq_true_2. left.
      + rewrite (bool_decide_eq_false_2 (Some false = Some true)) by discriminate.
        apply bool_decide_ext. rewrite elem_of_cons.
        split; [by right | by intros [?|?]]. }
  rewrite Hsome. by destruct (bool_decide (c ∈ l)).
Qed.

Lemma texts_placeholders (l : list string) (rest : list param) :
  Store.texts (ps ++ (PStr <$> l) ++ rest) r
    (map Placeholder (seq (length ps) (length l)))
  = Ok (Some <$> l).
Proof.
  revert ps. induction l as [|x l IH]; intros ps0; [done|].
  cbn [fmap list_fmap map length seq Store.texts Store.text app].
  rewrite list_lookup_middle by done.
  specialize (IH (ps0 ++ [PStr x])).
  rewrite length_app, <- app_assoc in IH. simpl in IH.
  replace (length ps0 + 1) with (S (length ps0)) in IH by lia.
  cbn [mbind result_bind]. simpl in *. by rewrite IH.
Qed.

Lemma holds_category_in (l : list string) :
  holds (ps ++ (PStr <$> l)) r
    (meaning (Clause.category_in (length ps) (length l)))
  = Ok (bool_decide (Place.category r ∈ l)).
Proof.
  unfold holds.
  cbn [meaning Clause.category_in Store.truth_of Store.text mbind result_bind].
  pose proof (texts_placeholders l []) as H. rewrite app_nil_r in H.
  rewrite H. cbn [mbind result_bind]. rewrite text_in_values.
  cbn [mbind result_bind].
  by destruct (bool_decide (Place.category r ∈ l)).
Qed.

Lemma holds_category_eq (s : string) :
  holds (ps ++ [PStr s]) r (meaning (Clause.category_eq (length ps)))
  = Ok (String.eqb (Place.category r) s).
Proof.
  unfold holds. simpl. rewrite list_lookup_middle by done. simpl.
  by destruct (String.eqb (Place.category r) s).
Qed.

Lemma holds_city_eq (c : string) :
  holds (ps ++ [PStr c]) r (meaning (Clause.city_eq (length ps)))
  = Ok (String.eqb (Place.city r) c).
Proof.
  unfold holds. simpl. rewrite list_lookup_middle by done. simpl.
  by destruct (String.eqb (Place.city r) c).
Qed.

Lemma holds_within (x1 y1 x2 y2 : pyfloat) :
  holds (ps ++ [PFloat x1; PFloat y1; PFloat x2; PFloat y2]) r
    (meaning (Clause.within (length ps)))
  = Ok (Store.st_within_envelope (Place.lng r) (Place.lat r) x1 y1 x2 y2).
Proof.
  unfold holds.
  cbn [meaning Clause.within Store.truth_of]. unfold Store.double.
  rewrite lookup_after_0, !lookup_after. cbn.
  by destruct (Store.st_within_envelope _ _ _ _ _ _).
Qed.

Lemma bound_category_in (l : list string) :
  bound (ps ++ (PStr <$> l))
    (meaning (Clause.category_in (length ps) (length l))).
Proof.
  simpl. split; [done|].
  apply Forall_forall. intros t (i & <- & Hi%list_elem_of_In%elem_of_seq)%list_elem_of_In%in_map_iff; simpl.
  destruct (lookup_lt_is_Some_2 l (i - length ps)) as [s Hs]; [lia|].
  exists s. rewrite lookup_app_r by lia.
  by rewrite list_lookup_fmap, Hs.
Qed.

Lemma bound_single (i : column) (s : string) :
  bound (ps ++ [PStr s]) (TextEq (Column i) (Placeholder (length ps))).
Proof.
  simpl. split; [done|]. exists s. by rewrite list_lookup_middle.
Qed.

Lemma bound_within (x1 y1 x2 y2 : pyfloat) :
  bound (ps ++ [PFloat x1; PFloat y1; PFloat x2; PFloat y2])
    (meaning (Clause.within (length ps))).
Proof.
  cbn [meaning Clause.within bound].
  exists (λ i, nth i [x1; y1; x2; y2] NaN).
  by rewrite lookup_after_0, !lookup_after.
Qed.

End Clauses.

(** ** What each builder step adds *)

Lemma holds_closed ps r c : bound [] c → holds ps r c = holds [] r c.
Proof. intros H. unfold holds. by rewrite <- (truth_of_app [] ps r c H). Qed.

Lemma holds_diaper_present ps r :
  holds ps r (meaning Clause.diaper_present) = diaper_match (Some "1") r.
Proof.
  unfold holds, diaper_match, diaper_table_count. simpl.
  destruct (Sql.field _ _) as [t|]; simpl; [|done].
  destruct (Sql.cast_int4 t) as [n|]; simpl; [|done].
  by destruct (0 <? n)%Z.
Qed.

Lemma holds_diaper_absent ps r :
  holds ps r (meaning Clause.diaper_absent) = diaper_match (Some "0") r.
Proof.
  unfold holds, diaper_match, diaper_table_count. simpl.
  destruct (Sql.field _ _) as [t|]; simpl; [|done].
  destruct (Sql.cast_int4 t) as [n|]; simpl; [|done].
  by destruct (n =? 0)%Z.
Qed.

Section Steps.

Variables (b : builder) (r : Place.row).
Hypothesis Hb : well_bound b.

Lemma freshness_filter_spec io :
  well_bound (freshness_filter io b)
  ∧ admits (freshness_filter io b) r
    = and_then (admits b r) (Ok (fresh_match io r)).
Proof.
  unfold freshness_filter, fresh_match. destruct io; simpl.
  - split; [done|]. by rewrite and_then_true_r.
  - split; [by apply well_bound_append|].
    by rewrite admits_append, holds_fresh.
Qed.

Lemma category_filter_spec category :
  well_bound (category_filter category b)
  ∧ admits (category_filter category b) r
    = and_then (admits b r) (Ok (category_match category r)).
Proof.
  destruct category as [|[|x l]|s]; unfold category_filter, category_match;
    try (split; [done|]; by rewrite and_then_true_r).
  - split.
    + apply well_bound_append; [done|].
      apply (bound_category_in (params b) (x :: l)).
    + rewrite admits_append by done.
      by rewrite (holds_category_in (params b) r (x :: l)).
  - destruct (String.eqb s ""); cbn [orb].
    + split; [done|]. by rewrite and_then_true_r.
    + split; [apply well_bound_append, bound_single; done|].
      by rewrite admits_append, holds_category_eq.
Qed.

Lemma city_filter_spec city :
  well_bound (city_filter city b)
  ∧ admits (city_filter city b) r
    = and_then (admits b r) (Ok (city_match city r)).
Proof.
  unfold city_filter, city_match.
  destruct city as [c|]; [|split; [done|]; by rewrite and_then_true_r].
  destruct (truthy (Some c)); cbn [negb orb].
  - split; [apply well_bound_append, bound_single; done|].
    by rewrite admits_append, holds_city_eq.
  - split; [done|]. by rewrite and_then_true_r.
Qed.

Lemma parse_bbox_four s fs :
  parse_bbox s = Ok fs → ∃ x1 y1 x2 y2, fs = [x1; y1; x2; y2].
Proof.
  unfold parse_bbox.
  destruct (split "," s) as [|p1 [|p2 [|p3 [|p4 [|]]]]]; try done.
  simpl.
  destruct (PyFloat.float p1), (PyFloat.float p2), (PyFloat.float p3),
    (PyFloat.float p4); simpl; try done.
  intros [= <-]. eauto.
Qed.

Lemma bbox_filter_spec bbox b' :
  bbox_filter bbox b = Ok b' →
  well_bound b'
  ∧ admits b' r = and_then (admits b r) (Ok (bbox_match bbox r)).
Proof.
  unfold bbox_filter, bbox_match.
  destruct bbox as [s|]; [|intros [= <-]; split; [done|];
                            by rewrite and_then_true_r].
  destruct (truthy (Some s)); cbn [negb orb];
    [|intros [= <-]; split; [done|]; by rewrite and_then_true_r].
  destruct (parse_bbox s) as [fs|] eqn:Hp; cbn [mbind result_bind]; [|done].
  destruct (parse_bbox_four _ _ Hp) as (x1 & y1 & x2 & y2 & ->).
  intros [= <-].
  split; [apply well_bound_append, bound_within; done|].
  by rewrite admits_append, holds_within.
Qed.

Lemma diaper_filter_spec flag :
  well_bound (diaper_filter flag b)
  ∧ admits (diaper_filter flag b) r
    = and_then (admits b r) (diaper_match flag r).
Proof.
  unfold diaper_filter.
  destruct flag as [f|]; [|split; [done|]; by rewrite and_then_true_r].
  unfold diaper_match at 1.
  destruct (String.eqb f "1") eqn:H1.
  { apply String.eqb_eq in H1 as ->.
    split; [by apply well_bound_append|].
    by rewrite admits_append, app_nil_r, holds_diaper_present. }
  destruct (String.eqb f "0") eqn:H0.
  { apply String.eqb_eq in H0 as ->.
    split; [by apply well_bound_append|].
    by rewrite admits_append, app_nil_r, holds_diaper_absent. }
  split; [done|]. by rewrite and_then_true_r.
Qed.

Lemma parking_filter_spec flag :
  well_bound (parking_filter flag b)
  ∧ admits (parking_filter flag b) r
    = and_then (admits b r) (parking_match flag r).
Proof.
  unfold parking_filter, parking_match.
  destruct flag as [f|]; [|split; [done|]; by rewrite and_then_true_r].
  destruct (String.eqb f "1").
  { split; [by apply well_bound_append|].
    rewrite admits_append, app_nil_r by done. by rewrite holds_closed. }
  destruct (String.eqb f "0").
  { split; [by apply well_bound_append|].
    rewrite admits_append, app_nil_r by done. by rewrite holds_closed. }
  split; [done|]. by rewrite and_then_true_r.
Qed.

End Steps.

(** ** The rows each statement admits *)

Section ClosedForms.

Lemma well_bound_initial ps : well_bound {| conditions := []; params := ps |}.
Proof. constructor. Qed.

Lemma places_builder_admits category city bbox d p io b r :
  places_builder category city bbox d p io = Ok b →
  admits b r = places_match category city bbox d p io r.
Proof.
  unfold places_builder, places_match.
  set (b0 := {| conditions := []; params := [] |}).
  pose proof (well_bound_initial []) as H0. fold b0 in H0.
  destruct (freshness_filter_spec b0 r H0 io) as [H1 E1].
  destruct (category_filter_spec _ r H1 category) as [H2 E2].
  destruct (city_filter_spec _ r H2 city) as [H3 E3].
  destruct (bbox_filter bbox _) as [b4|] eqn:Hbox; [|done].
  cbn [mbind result_bind].
  destruct (bbox_filter_spec _ r H3 bbox b4 Hbox) as [H4 E4].
  destruct (diaper_filter_spec _ r H4 d) as [H5 E5].
  destruct (parking_filter_spec _ r H5 p) as [H6 E6].
  intros [= <-].
  rewrite E6, E5, E4, E3, E2, E1.
  change (admits b0 r) with (Ok true : result bool).
  by rewrite !and_then_ok.
Qed.

Lemma cities_builder_admits category io r :
  admits (cities_builder category io) r = Ok (common_match category io r).
Proof.
  unfold cities_builder, common_match.
  set (b0 := {| conditions := []; params := [] |}).
  pose proof (well_bound_initial []) as H0. fold b0 in H0.
  destruct (freshness_filter_spec b0 r H0 io) as [H1 E1].
  destruct (category_filter_spec _ r H1 category) as [H2 E2].
  rewrite E2, E1.
  change (admits b0 r) with (Ok true : result bool).
  by rewrite !and_then_ok.
Qed.

Lemma districts_builder_admits city category io r :
  well_bound (districts_builder city category io)
  ∧ admits (districts_builder city category io) r
    = Ok (common_match category io r).
Proof.
  unfold districts_builder, common_match.
  set (b0 := {| conditions := []; params := [PStr city] |}).
  pose proof (well_bound_initial [PStr city]) as H0. fold b0 in H0.
  destruct (freshness_filter_spec b0 r H0 io) as [H1 E1].
  destruct (category_filter_spec _ r H1 category) as [H2 E2].
  split; [done|].
  rewrite E2, E1.
  change (admits b0 r) with (Ok true : result bool).
  by rewrite !and_then_ok.
Qed.

Lemma districts_builder_city city category io :
  params (districts_builder city category io) !! 0 = Some (PStr city).
Proof.
  unfold districts_builder, freshness_filter, category_filter.
  destruct io, category as [|[|??]|s]; try done.
  - by destruct (String.eqb s "").
  - by destruct (String.eqb s "").
Qed.

Lemma districts_where_qualifies city category io r :
  let b := districts_builder city category io in
  Store.qualifies (districts_where b) (params b) r
  = Ok (districts_match city category io r).
Proof.
  intros b. unfold districts_where, districts_match.
  rewrite qualifies_cons, qualifies_app, qualifies_single.
  destruct (districts_builder_admits city category io r) as [_ E].
  fold b in E. unfold admits in E. rewrite E.
  unfold holds at 1. cbn [meaning Clause.city_eq Store.truth_of Store.text].
  subst b. rewrite districts_builder_city. cbn.
  unfold holds. cbn. fold (district r).
  destruct (String.eqb (Place.city r) city); cbn; [|done].
  destruct (common_match category io r); cbn; [|done].
  by destruct (bool_decide (district r ≠ None)).
Qed.

End ClosedForms.

(** ** The three operations in closed form *)

#[global] Instance normalize_inj : Inj (=) (=) normalize_place_from_db.
Proof. intros [] [] [=]. by simplify_eq/=. Qed.

Section ListPlaces.

Variables (category : categories) (city bbox : option string)
          (d p : option string) (io : bool).

Lemma get_places_rejected pre r post :
  places_match category city bbox d p io r = Ok false →
  get_places category city bbox d p io (pre ++ r :: post)
  = get_places category city bbox d p io (pre ++ post).
Proof.
  intros H. unfold get_places.
  destruct (places_builder category city bbox d p io) as [b|] eqn:Hb;
    [|done].
  cbn [mbind result_bind].
  rewrite select_where_rejected; [done|].
  by rewrite <- H, <- (places_builder_admits _ _ _ _ _ _ b r Hb).
Qed.

Lemma get_places_admitted pre r post res :
  places_match category city bbox d p io r = Ok true →
  get_places category city bbox d p io (pre ++ r :: post) = Ok res →
  normalize_place_from_db r ∈ items res.
Proof.
  intros H. unfold get_places.
  destruct (places_builder category city bbox d p io) as [b|] eqn:Hb;
    [|done].
  cbn [mbind result_bind].
  destruct (Store.select_where _ _ _) as [rows|] eqn:Hs; [|done].
  cbn [mbind result_bind]. intros [= <-]. cbn [items].
  rewrite <- (places_builder_admits _ _ _ _ _ _ b r Hb) in H.
  destruct (select_where_admitted _ _ _ _ _ _ H Hs) as (a & c & _ & _ & ->).
  apply list_elem_of_fmap_2, elem_of_app. right. left.
Qed.


Lemma get_places_sound table res x :
  get_places category city bbox d p io table = Ok res →
  x ∈ items res →
  ∃ r, r ∈ table ∧ x = normalize_place_from_db r
       ∧ places_match category city bbox d p io r = Ok true.
Proof.
  unfold get_places.
  destruct (places_builder category city bbox d p io) as [b|] eqn:Hb;
    [|done].
  cbn [mbind result_bind].
  destruct (Store.select_where _ _ _) as [rows|] eqn:Hs; [|done].
  cbn [mbind result_bind]. intros [= <-]. cbn [items].
  intros (r & -> & Hr)%list_elem_of_fmap.
  destruct (select_where_sound _ _ _ _ _ Hs Hr) as [Hin Hq].
  exists r. repeat split; [done|].
  by rewrite <- (places_builder_admits _ _ _ _ _ _ b r Hb).
Qed.

Lemma get_places_filter (f : Place.row → bool) table :
  is_ok (places_builder category city bbox d p io) = true →
  (∀ r, r ∈ table →
        places_match category city bbox d p io r = Ok (f r)) →
  get_places category city bbox d p io table
  = Ok (places_of (filter (λ r, Is_true (f r)) table)).
Proof.
  intros Hok H. unfold get_places.
  destruct (places_builder category city bbox d p io) as [b|] eqn:Hb;
    [|done].
  cbn [mbind result_bind].
  rewrite (select_where_filter _ _ f); [done|].
  intros r Hr. rewrite <- (H r Hr).
  apply (places_builder_admits _ _ _ _ _ _ b r Hb).
Qed.

End ListPlaces.

Section ListCities.

Lemma lookup_city_name_first code table :
  lookup_city_name code table
  = Ok (city_name <$> head (filter (named_in code) table)).
Proof.
  unfold lookup_city_name.
  rewrite (select_where_filter _ _
    (λ r, String.eqb (Place.city r) code && bool_decide (city_name r ≠ None))).
  - cbn [mbind result_bind]. do 3 f_equal.
    apply list_filter_iff. intros r. unfold named_in.
    rewrite andb_True, bool_decide_spec.
    by rewrite Is_true_true, String.eqb_eq.
  - intros r _. rewrite qualifies_cons, qualifies_single.
    unfold holds. cbn. fold (city_name r).
    destruct (String.eqb (Place.city r) code); cbn; [|done].
    by destruct (bool_decide (city_name r ≠ None)).
Qed.

Lemma city_aggregate_row table row :
  city_aggregate table row = Ok (city_row table row).
Proof.
  unfold city_aggregate, city_row, resolve_name.
  rewrite lookup_city_name_first. cbn [mbind result_bind].
  destruct (head (filter (named_in row.1) table)) as [r|]; cbn; [|done].
  destruct (city_name r) as [t|]; cbn; [|done].
  by destruct (String.eqb t "").
Qed.

Lemma for_each_total {A B} (f : A → result B) (g : A → B) l :
  (∀ a, f a = Ok (g a)) → for_each f l = Ok (g <$> l).
Proof.
  intros H. induction l as [|a l IH]; [done|].
  cbn [for_each]. rewrite H, IH. done.
Qed.

Lemma get_cities_closed category io table :
  get_cities category io table
  = Ok (city_row table
          <$> Store.group_count String.leb
                (Place.city
                   <$> filter (λ r, Is_true (common_match category io r))
                         table)).
Proof.
  unfold get_cities.
  rewrite (select_where_filter _ _ (common_match category io)).
  - cbn [mbind result_bind].
    apply for_each_total, city_aggregate_row.
  - intros r _. apply cities_builder_admits.
Qed.

End ListCities.

Section ListDistricts.

Lemma get_districts_closed city category io table :
  city ≠ "" →
  get_districts city category io table
  = Ok {| city := city;
          districts :=
            omap district_aggregate
              (Store.group_count Store.key_leb
                 (district
                    <$> filter
                          (λ r, Is_true (districts_match city category io r))
                          table)) |}.
Proof.
  intros Hc. unfold get_districts.
  destruct (String.eqb_spec city "") as [|_]; [done|].
  rewrite (select_where_filter _ _ (districts_match city category io)).
  - reflexivity.
  - intros r _. apply districts_where_qualifies.
Qed.

End ListDistricts.

(** ** Grouped counts *)

Section StringOrder.

Lemma ascii_compare_trans_le a b c :
  Ascii.compare a b ≠ Gt → Ascii.compare b c ≠ Gt → Ascii.compare a c ≠ Gt.
Proof.
  unfold Ascii.compare. rewrite !N.compare_gt_iff. lia.
Qed.

Lemma string_leb_trans a b c :
  String.leb a b = true → String.leb b c = true → String.leb a c = true.
Proof.
  unfold String.leb. revert b c.
  induction a as [|x a IH]; intros [|y b] [|z c]; cbn; try done.
  unfold Ascii.compare.
  destruct (N.compare_spec (N_of_ascii x) (N_of_ascii y)) as [Hxy|Hxy|Hxy];
    destruct (N.compare_spec (N_of_ascii y) (N_of_ascii z)) as [Hyz|Hyz|Hyz];
    try done.
  - rewrite Hxy, Hyz, N.compare_refl. apply IH.
  - intros _ _. rewrite Hxy. by apply N.compare_lt_iff in Hyz as ->.
  - intros _ _. rewrite <- Hyz. by apply N.compare_lt_iff in Hxy as ->.
  - intros _ _.
    assert (H : (N_of_ascii x < N_of_ascii z)%N) by lia.
    by apply N.compare_lt_iff in H as ->.
Qed.

#[global] Instance string_le_trans :
  Transitive (λ a b, Is_true (String.leb a b)).
Proof.
  intros a b c. rewrite !Is_true_true. apply string_leb_trans.
Qed.

#[global] Instance string_le_total : Total (λ a b, Is_true (String.leb a b)).
Proof. intros a b. rewrite !Is_true_true. apply String.leb_total. Qed.

#[global] Instance string_le_antisym :
  AntiSymm (=) (λ a b, Is_true (String.leb a b)).
Proof. intros a b. rewrite !Is_true_true. apply String.leb_antisym. Qed.

#[global] Instance key_le_trans :
  Transitive (λ a b, Is_true (Store.key_leb a b)).
Proof.
  intros [a|] [b|] [c|]; cbn; try done. apply string_le_trans.
Qed.

#[global] Instance key_le_total : Total (λ a b, Is_true (Store.key_leb a b)).
Proof.
  intros [a|] [b|]; cbn; try (by left); try (by right). apply string_le_total.
Qed.

#[global] Instance key_le_antisym :
  AntiSymm (=) (λ a b, Is_true (Store.key_leb a b)).
Proof.
  intros [a|] [b|]; cbn; try done.
  intros H1 H2. f_equal. by apply string_le_antisym.
Qed.

End StringOrder.

Section Groups.

Context {K : Type} `{EqDecision K} (leb : K → K → bool).

Lemma group_count_elem k n keys :
  (k, n) ∈ Store.group_count leb keys ↔ k ∈ keys ∧ n = occurrences k keys.
Proof.
  unfold Store.group_count. rewrite list_elem_of_fmap. split.
  - intros (k' & [= -> ->] & Hin).
    rewrite merge_sort_Permutation, elem_of_remove_dups in Hin. done.
  - intros [Hin ->]. exists k. split; [done|].
    by rewrite merge_sort_Permutation, elem_of_remove_dups.
Qed.

Lemma occurrences_insert (k k' : K) pre post :
  occurrences k (pre ++ k' :: post)
  = (if decide (k = k') then 1 else 0) + occurrences k (pre ++ post).
Proof.
  unfold occurrences. rewrite !filter_app, filter_cons, !length_app.
  destruct (decide (k = k')); cbn; lia.
Qed.

Lemma occurrences_zero (k : K) keys : k ∉ keys → occurrences k keys = 0.
Proof.
  intros Hin. unfold occurrences.
  destruct (filter (eq k) keys) as [|x l] eqn:E; [done|].
  assert (H : x ∈ filter (eq k) keys) by (rewrite E; left).
  apply list_elem_of_filter in H as [<- H]. done.
Qed.

Context `{!Transitive (λ a b, Is_true (leb a b)),
          !Total (λ a b, Is_true (leb a b)),
          !AntiSymm (=) (λ a b, Is_true (leb a b))}.

Lemma StronglySorted_filter_keep (P : K → Prop) `{∀ x, Decision (P x)} l :
  StronglySorted (λ a b, Is_true (leb a b)) l →
  StronglySorted (λ a b, Is_true (leb a b)) (filter P l).
Proof.
  induction 1 as [|x l Hs IH Hx]; [constructor|].
  rewrite filter_cons. destruct (decide (P x)); [|done].
  constructor; [done|].
  apply Forall_forall. intros y [_ Hy]%list_elem_of_filter.
  by eapply Forall_forall in Hx.
Qed.

(** Apart from the entry of key [k] itself, one more row of key [k]
    changes nothing in the grouped result. *)
Lemma group_count_insert_others k pre post :
  filter (λ e, e.1 ≠ k) (Store.group_count leb (pre ++ k :: post))
  = filter (λ e, e.1 ≠ k) (Store.group_count leb (pre ++ post)).
Proof.
  unfold Store.group_count.
  set (R := λ a b, Is_true (leb a b)).
  assert (Hkeys :
    filter (λ x, x ≠ k) (merge_sort R (remove_dups (pre ++ k :: post)))
    = filter (λ x, x ≠ k) (merge_sort R (remove_dups (pre ++ post)))).
  { apply (StronglySorted_unique R).
    - apply StronglySorted_filter_keep, StronglySorted_merge_sort; apply _.
    - apply StronglySorted_filter_keep, StronglySorted_merge_sort; apply _.
    - apply NoDup_Permutation.
      + apply NoDup_filter. rewrite merge_sort_Permutation.
        apply NoDup_remove_dups.
      + apply NoDup_filter. rewrite merge_sort_Permutation.
        apply NoDup_remove_dups.
      + intros x. rewrite !list_elem_of_filter, !merge_sort_Permutation,
          !elem_of_remove_dups, !elem_of_app, elem_of_cons.
        tauto. }
  revert Hkeys.
  generalize (merge_sort R (remove_dups (pre ++ k :: post))).
  generalize (merge_sort R (remove_dups (pre ++ post))).
  intros l2 l1 Hkeys.
  assert (Hmap : ∀ (keys : list K) (l : list K),
    filter (λ e : K * nat, e.1 ≠ k)
      (map (λ x, (x, length (filter (eq x) keys))) l)
    = map (λ x, (x, length (filter (eq x) keys))) (filter (λ x, x ≠ k) l)).
  { intros keys l. induction l as [|x l IH]; [done|].
    cbn [map]. rewrite !filter_cons. cbn [fst].
    destruct (decide (x ≠ k)); cbn [map]; by rewrite IH. }
  rewrite !Hmap, Hkeys.
  apply map_ext_in. intros x [Hx _]%list_elem_of_In%list_elem_of_filter.
  f_equal. fold (occurrences x (pre ++ k :: post)).
  rewrite occurrences_insert. by rewrite decide_False.
Qed.

End Groups.


(** ** C1: the parking flag ["0"] *)

Lemma parking_absent_unknown r :
  no_parking_data r → parking_match (Some "0") r = Ok false.
Proof.
  intros (H1 & H2 & H3). unfold parking_match, holds. cbn.
  unfold Sql.field. by rewrite H1, H2, H3.
Qed.

Lemma and_then_not_true_r a b : b ≠ Ok true → and_then a b ≠ Ok true.
Proof. by destruct a as [[]|]. Qed.

(** C1 (the code departs from the claim). With the parking flag ["0"], a row
    whose properties hold none of [has_parking], [parking], [parking_count]
    is never returned by list-places, whatever the other criteria and the
    other rows are: the negated disjunction of three NULLs is NULL, and the
    row is rejected. *)
Theorem parking_absent_drops_row_without_data
    category city bbox d io table res r :
  no_parking_data r →
  get_places category city bbox d (Some "0") io table = Ok res →
  normalize_place_from_db r ∉ items res.
Proof.
  intros Hr Hres Hin.
  destruct (get_places_sound _ _ _ _ _ _ _ _ _ Hres Hin) as (r' & _ & E & Hm).
  apply (inj _) in E as <-.
  revert Hm. unfold places_match. rewrite (parking_absent_unknown r Hr).
  by apply and_then_not_true_r.
Qed.

Lemma parking_absent_drops_row_without_data_witness :
  get_places NoCategory None None None (Some "0") true [Sample.bare]
  = Ok {| items := []; count := 0 |}
  ∧ normalize_place_from_db Sample.bare
    ∉ items {| items := []; count := 0 |}.
Proof.
  split; [reflexivity|].
  apply (parking_absent_drops_row_without_data
           NoCategory None None None true [Sample.bare]);
    [repeat split | reflexivity].
Defined.

(** ** C2: the bounding box *)

Lemma float_ltb_finite a b :
  Is_true (PyFloat.ltb (Finite a) (Finite b)) ↔ (a < b)%Q.
Proof.
  cbn. rewrite negb_True, Is_true_true, Qle_bool_iff. split.
  - apply Qnot_le_lt.
  - apply Qlt_not_le.
Qed.

Lemma st_within_proper_box x y x1 y1 x2 y2 :
  (x1 < x2)%Q → (y1 < y2)%Q →
  Is_true (Store.st_within_envelope x y (Finite x1) (Finite y1)
             (Finite x2) (Finite y2))
  ↔ (x1 < x)%Q ∧ (x < x2)%Q ∧ (y1 < y)%Q ∧ (y < y2)%Q.
Proof.
  intros Hx Hy. unfold Store.st_within_envelope, PyFloat.min, PyFloat.max.
  assert (Ex : PyFloat.ltb (Finite x1) (Finite x2) = true)
    by by apply Is_true_true, float_ltb_finite.
  assert (Ey : PyFloat.ltb (Finite y1) (Finite y2) = true)
    by by apply Is_true_true, float_ltb_finite.
  assert (Ex' : PyFloat.ltb (Finite x2) (Finite x1) = false).
  { apply Is_true_false. rewrite float_ltb_finite.
    by apply Qle_not_lt, Qlt_le_weak. }
  assert (Ey' : PyFloat.ltb (Finite y2) (Finite y1) = false).
  { apply Is_true_false. rewrite float_ltb_finite.
    by apply Qle_not_lt, Qlt_le_weak. }
  rewrite Ex, Ey, Ex', Ey'.
  rewrite !andb_True, !float_ltb_finite. tauto.
Qed.

Lemma parse_bbox_nonempty s fs : parse_bbox s = Ok fs → truthy (Some s) = true.
Proof. destruct s; [done|reflexivity]. Qed.

(** Without amenity flags no condition of the statement can raise. *)
Lemma places_match_plain category city bbox io r :
  places_match category city bbox None None io r
  = Ok (fresh_match io r && category_match category r
        && city_match city r && bbox_match bbox r).
Proof.
  unfold places_match, diaper_match, parking_match.
  by rewrite !and_then_true_r.
Qed.

(** C2 (as amended). For a bounding box whose four components parse to
    finite numbers with [minLng < maxLng] and [minLat < maxLat], list-places
    with only the box active and outdated rows included returns, in table
    order, exactly the rows whose point lies strictly inside the rectangle:
    a point on an edge is not returned. *)
Theorem bbox_returns_the_interior bbox x1 y1 x2 y2 table :
  parse_bbox bbox = Ok [Finite x1; Finite y1; Finite x2; Finite y2] →
  (x1 < x2)%Q → (y1 < y2)%Q →
  get_places NoCategory None (Some bbox) None None true table
  = Ok (places_of (filter (in_interior x1 y1 x2 y2) table)).
Proof.
  intros Hp Hx Hy.
  pose proof (parse_bbox_nonempty _ _ Hp) as Ht.
  rewrite (get_places_filter _ _ _ _ _ _ (bbox_match (Some bbox))).
  - do 2 f_equal. apply list_filter_iff. intros r.
    unfold bbox_match. rewrite Ht, Hp. cbn [negb orb].
    by apply st_within_proper_box.
  - unfold places_builder, bbox_filter, freshness_filter, category_filter,
      city_filter. by rewrite Ht, Hp.
  - intros r _. by rewrite places_match_plain.
Qed.

Lemma bbox_returns_the_interior_witness :
  get_places NoCategory None (Some "0,0,2,2") None None true
    [Sample.on_edge; Sample.inside]
  = Ok (places_of (filter (in_interior 0 0 2 2)
                     [Sample.on_edge; Sample.inside])).
Proof.
  apply (bbox_returns_the_interior "0,0,2,2" 0 0 2 2);
    [reflexivity | reflexivity | reflexivity].
Defined.

(** C2 (counterexample to the closed rectangle). The place lies on the
    west edge of the box, hence in the closed rectangle, and list-places
    does not return it. *)
Lemma bbox_edge_point_not_returned :
  parse_bbox "0,0,2,2" = Ok [Finite 0; Finite 0; Finite 2; Finite 2]
  ∧ in_closed_box 0 0 2 2 Sample.on_edge
  ∧ get_places NoCategory None (Some "0,0,2,2") None None true
      [Sample.on_edge]
    = Ok {| items := []; count := 0 |}.
Proof.
  split; [reflexivity|]. split; [|reflexivity].
  unfold in_closed_box. cbn. repeat split; by apply Qle_bool_iff.
Qed.

(** ** C3: malformed bounding boxes *)








(** ** C4: a missing or non-numeric diaper table count *)






(** ** Counting in the aggregates *)

Section Aggregates.

Lemma head_filter_Some {A} (P : A → Prop) `{∀ x, Decision (P x)} l a :
  head (filter P l) = Some a → P a ∧ a ∈ l.
Proof.
  intros H'. apply (list_elem_of_filter P).
  destruct (filter P l) as [|x l']; [done|].
  injection H' as ->. left.
Qed.

Lemma head_filter_None {A} (P : A → Prop) `{∀ x, Decision (P x)} l a :
  head (filter P l) = None → a ∈ l → ¬ P a.
Proof.
  intros H' Hin HP.
  assert (Ha : a ∈ filter P l) by by apply list_elem_of_filter.
  destruct (filter P l); [by apply elem_of_nil in Ha|done].
Qed.

Lemma filter_skip {A} (f : A → bool) pre r post :
  f r = false →
  filter (λ x, Is_true (f x)) (pre ++ r :: post)
  = filter (λ x, Is_true (f x)) (pre ++ post).
Proof.
  intros H'. rewrite !filter_app, filter_cons.
  destruct (decide (Is_true (f r))) as [Hf|]; [|done].
  by rewrite H' in Hf.
Qed.

Lemma filter_keep {A} (f : A → bool) pre r post :
  f r = true →
  filter (λ x, Is_true (f x)) (pre ++ r :: post)
  = filter (λ x, Is_true (f x)) pre ++ r :: filter (λ x, Is_true (f x)) post.
Proof.
  intros H'. rewrite !filter_app, filter_cons.
  destruct (decide (Is_true (f r))) as [|Hf]; [done|].
  by rewrite H' in Hf.
Qed.

Lemma city_counts_rows table rows :
  city_counts (city_row table <$> rows) = rows.
Proof.
  unfold city_counts. rewrite <- list_fmap_compose.
  induction rows as [|[c n] rows IH]; [done|]. cbn. by rewrite IH.
Qed.

Lemma city_count_grouped table keys code :
  city_count (city_row table <$> Store.group_count String.leb keys) code
  = occurrences code keys.
Proof.
  unfold city_count.
  destruct (head _) as [a|] eqn:Hh; cbn.
  - apply head_filter_Some in Hh as [<- Ha].
    apply list_elem_of_fmap in Ha as ([k n] & -> & Hkn).
    by apply group_count_elem in Hkn as [_ ->].
  - destruct (decide (code ∈ keys)) as [Hin|Hin];
      [|by rewrite occurrences_zero].
    exfalso.
    apply (head_filter_None _ _
             (city_row table (code, occurrences code keys)) Hh); [|done].
    apply list_elem_of_fmap_2. by apply group_count_elem.
Qed.

Lemma district_aggregate_Some k n a :
  district_aggregate (k, n) = Some a ↔
  ∃ s, k = Some s ∧ s ≠ "" ∧ a = {| District.name := s; District.count := n |}.
Proof.
  unfold district_aggregate. cbn. destruct k as [s|]; cbn.
  - destruct (String.eqb_spec s "") as [->|Hs]; cbn.
    + split; [done|]. by intros (? & [= <-] & ? & _).
    + split.
      * intros [= <-]. eauto.
      * by intros (? & [= <-] & _ & ->).
  - split; [done|]. by intros (? & ? & _).
Qed.

Lemma district_count_grouped keys name :
  name ≠ "" →
  district_count
    (omap district_aggregate (Store.group_count Store.key_leb keys)) name
  = occurrences (Some name) keys.
Proof.
  intros Hne. unfold district_count.
  destruct (head _) as [a|] eqn:Hh; cbn.
  - apply head_filter_Some in Hh as [<- Ha].
    apply list_elem_of_omap in Ha as ([k n] & Hkn & Hagg).
    apply district_aggregate_Some in Hagg as (s & -> & _ & ->). cbn.
    by apply group_count_elem in Hkn as [_ ->].
  - destruct (decide (Some name ∈ keys)) as [Hin|Hin];
      [|by rewrite occurrences_zero].
    exfalso.
    apply (head_filter_None _ _
             {| District.name := name;
                District.count := occurrences (Some name) keys |} Hh);
      [|done].
    apply list_elem_of_omap.
    exists (Some name, occurrences (Some name) keys). split.
    + by apply group_count_elem.
    + apply district_aggregate_Some. eauto.
Qed.

Variables (category : categories) (io : bool).

(** A row that the common conditions reject is not counted. *)
Lemma get_cities_skips pre r post :
  common_match category io r = false →
  ∃ out out',
    get_cities category io (pre ++ r :: post) = Ok out
    ∧ get_cities category io (pre ++ post) = Ok out'
    ∧ city_counts out = city_counts out'.
Proof.
  intros H. rewrite !get_cities_closed. do 2 eexists.
  split; [done|]. split; [done|].
  by rewrite !city_counts_rows, (filter_skip _ _ _ _ H).
Qed.

(** A row that the common conditions admit adds one to its city. *)
Lemma get_cities_counts pre r post :
  common_match category io r = true →
  ∃ out out',
    get_cities category io (pre ++ r :: post) = Ok out
    ∧ get_cities category io (pre ++ post) = Ok out'
    ∧ city_count out (Place.city r) = S (city_count out' (Place.city r)).
Proof.
  intros H. rewrite !get_cities_closed. do 2 eexists.
  split; [done|]. split; [done|].
  rewrite !city_count_grouped, (filter_keep _ _ _ _ H), filter_app.
  rewrite !fmap_app, fmap_cons, occurrences_insert.
  by rewrite decide_True.
Qed.

Lemma get_districts_skips city pre r post :
  districts_match city category io r = false →
  get_districts city category io (pre ++ r :: post)
  = get_districts city category io (pre ++ post).
Proof.
  intros H. destruct (decide (city = "")) as [->|Hc]; [done|].
  rewrite !get_districts_closed by done.
  by rewrite (filter_skip _ _ _ _ H).
Qed.

Lemma get_districts_counts city name pre r post :
  city ≠ "" → name ≠ "" →
  districts_match city category io r = true →
  district r = Some name →
  ∃ res res',
    get_districts city category io (pre ++ r :: post) = Ok res
    ∧ get_districts city category io (pre ++ post) = Ok res'
    ∧ district_count (districts res) name
      = S (district_count (districts res') name).
Proof.
  intros Hc Hn H Hd. rewrite !get_districts_closed by done.
  do 2 eexists. split; [done|]. split; [done|]. cbn [districts].
  rewrite !district_count_grouped by done.
  rewrite (filter_keep _ _ _ _ H), filter_app.
  rewrite !fmap_app, fmap_cons, occurrences_insert, Hd.
  by rewrite decide_True.
Qed.

End Aggregates.

(** ** C5: outdated rows *)

Lemma places_match_fresh category city bbox d p io r :
  places_match category city bbox d p io r
  = if fresh_match io r then other_criteria_match category city bbox d p r
    else Ok false.
Proof.
  unfold places_match, other_criteria_match.
  by destruct (fresh_match io r).
Qed.

Lemma outdated_not_fresh r : is_outdated r → fresh_match false r = false.
Proof.
  unfold is_outdated, fresh_match, data_status, Sql.field. intros ->. done.
Qed.

(** C5. A row whose [data_status] is [outdated]: with
    [include_outdated = false] it leaves no trace in the result of
    list-places, in the counts of list-cities and in the result of
    list-districts; with [include_outdated = true] it is returned by
    list-places, counted in its city and counted in its district whenever
    the other conditions of the operation admit it. *)
Theorem outdated_rows_follow_include_outdated
    category city bbox d p of_city pre post r :
  is_outdated r →
  (get_places category city bbox d p false (pre ++ r :: post)
   = get_places category city bbox d p false (pre ++ post)
   ∧ (∃ out out',
        get_cities category false (pre ++ r :: post) = Ok out
        ∧ get_cities category false (pre ++ post) = Ok out'
        ∧ city_counts out = city_counts out')
   ∧ get_districts of_city category false (pre ++ r :: post)
     = get_districts of_city category false (pre ++ post))
  ∧ ((other_criteria_match category city bbox d p r = Ok true →
      ∀ res,
        get_places category city bbox d p true (pre ++ r :: post) = Ok res →
        normalize_place_from_db r ∈ items res)
     ∧ (category_match category r = true →
        ∃ out out',
          get_cities category true (pre ++ r :: post) = Ok out
          ∧ get_cities category true (pre ++ post) = Ok out'
          ∧ city_count out (Place.city r)
            = S (city_count out' (Place.city r)))
     ∧ (∀ name,
          category_match category r = true →
          Place.city r = of_city → of_city ≠ "" →
          district r = Some name → name ≠ "" →
          ∃ res res',
            get_districts of_city category true (pre ++ r :: post) = Ok res
            ∧ get_districts of_city category true (pre ++ post) = Ok res'
            ∧ district_count (districts res) name
              = S (district_count (districts res') name))).
Proof.
  intros Hout%outdated_not_fresh. split; [split; [|split]|split; [|split]].
  - apply get_places_rejected. by rewrite places_match_fresh, Hout.
  - apply get_cities_skips. unfold common_match. by rewrite Hout.
  - apply get_districts_skips. unfold districts_match, common_match.
    rewrite Hout. by destruct (String.eqb _ _).
  - intros Hadm res. apply get_places_admitted.
    by rewrite places_match_fresh.
  - intros Hcat. apply get_cities_counts. unfold common_match.
    by rewrite Hcat.
  - intros name Hcat Hcity Hne Hd Hname.
    apply get_districts_counts; try done.
    unfold districts_match, common_match. rewrite Hcat, Hd, Hcity.
    by rewrite String.eqb_refl.
Qed.

Lemma outdated_rows_follow_include_outdated_witness :
  (get_places NoCategory None None None None false [Sample.outdated]
   = get_places NoCategory None None None None false []
   ∧ get_districts "taipei" NoCategory false [Sample.outdated]
     = get_districts "taipei" NoCategory false [])
  ∧ normalize_place_from_db Sample.outdated
    ∈ items (places_of [Sample.outdated]).
Proof.
  destruct (outdated_rows_follow_include_outdated
              NoCategory None None None None "taipei" [] [] Sample.outdated
              eq_refl) as [(Hplaces & _ & Hdistricts) (Hincluded & _ & _)].
  split; [split; [exact Hplaces | exact Hdistricts]|].
  apply Hincluded; reflexivity.
Defined.

(** ** C6: the display name of a city *)

(** C6 (as amended). The name of every aggregate of list-cities is settled
    by the first row of the whole table, in table order, whose city is the
    aggregate's code and whose [city_name] is not null, whatever the
    category and freshness filters of the request are: the name is that
    row's [city_name] when this text is not empty; it is the code itself
    when that text is empty or when there is no such row. *)
Theorem city_name_comes_from_first_named_row category io table out a :
  get_cities category io table = Ok out → a ∈ out →
  match head (filter (named_in (City.code a)) table) with
  | Some r =>
      r ∈ table ∧ Place.city r = City.code a
      ∧ ∃ t, city_name r = Some t
             ∧ City.name a = if String.eqb t "" then City.code a else t
  | None => City.name a = City.code a
  end.
Proof.
  rewrite get_cities_closed. intros [= <-].
  intros ([c n] & -> & _)%list_elem_of_fmap.
  unfold city_row, resolve_name. cbn [City.code City.name fst].
  destruct (head (filter (named_in c) table)) as [r|] eqn:Hh; [|done].
  apply head_filter_Some in Hh as [[Hc Hn] Hin].
  split; [done|]. split; [done|].
  cbn. destruct (city_name r) as [t|]; [|done]. by exists t.
Qed.

Lemma city_name_comes_from_first_named_row_witness :
  match head (filter (named_in "taipei") [Sample.unnamed]) with
  | Some r =>
      r ∈ [Sample.unnamed] ∧ Place.city r = "taipei"
      ∧ ∃ t, city_name r = Some t
             ∧ "taipei" = if String.eqb t "" then "taipei" else t
  | None => "taipei" = "taipei"
  end.
Proof.
  apply (city_name_comes_from_first_named_row NoCategory true
           [Sample.unnamed]
           [{| City.code := "taipei"; City.name := "taipei"; City.count := 1 |}]
           {| City.code := "taipei"; City.name := "taipei"; City.count := 1 |});
    [reflexivity | left].
Defined.

(** C6 (counterexample). The only row of the city carries a [city_name]
    that is not null, the empty string; the aggregate is named by the code,
    which is the [city_name] of no row. *)
Lemma empty_city_name_falls_back_to_code :
  get_cities NoCategory true [Sample.unnamed]
  = Ok [{| City.code := "taipei"; City.name := "taipei"; City.count := 1 |}]
  ∧ named_in "taipei" Sample.unnamed
  ∧ ∀ r, r ∈ [Sample.unnamed] → city_name r ≠ Some "taipei".
Proof.
  split; [reflexivity|]. split; [by split|].
  intros r ->%list_elem_of_singleton. discriminate.
Qed.

(** ** C7: rows without a district *)

Lemma no_district_not_grouped city category io r :
  district r = None → districts_match city category io r = false.
Proof.
  intros H. unfold districts_match. rewrite H.
  by rewrite andb_false_r.
Qed.

(** C7. A row whose properties have no [district] sub-field leaves no
    trace in the district breakdown of list-districts, for every city and
    every category and freshness filter; when the row passes those common
    filters it still adds one to the count of its city in list-cities. *)
Theorem row_without_district_counts_in_city_only
    of_city category io pre post r :
  Place.properties r !! "district" = None →
  get_districts of_city category io (pre ++ r :: post)
  = get_districts of_city category io (pre ++ post)
  ∧ (common_match category io r = true →
     ∃ out out',
       get_cities category io (pre ++ r :: post) = Ok out
       ∧ get_cities category io (pre ++ post) = Ok out'
       ∧ city_count out (Place.city r) = S (city_count out' (Place.city r))).
Proof.
  intros Hnone.
  assert (Hd : district r = None) by (unfold district, Sql.field; by rewrite Hnone).
  split.
  - by apply get_districts_skips, no_district_not_grouped.
  - apply get_cities_counts.
Qed.

Lemma row_without_district_counts_in_city_only_witness :
  get_districts "taipei" NoCategory false [Sample.no_district]
  = get_districts "taipei" NoCategory false []
  ∧ ∃ out out',
      get_cities NoCategory false [Sample.no_district] = Ok out
      ∧ get_cities NoCategory false [] = Ok out'
      ∧ city_count out "taipei" = S (city_count out' "taipei").
Proof.
  destruct (row_without_district_counts_in_city_only
              "taipei" NoCategory false [] [] Sample.no_district eq_refl)
    as [Hd Hc].
  split; [exact Hd|]. apply Hc. reflexivity.
Defined.

(** ** C8: the two diaper flags against each other *)

Lemma select_where_refine conds ps conds' ps' (g : Place.row → bool) t rows :
  Store.select_where conds ps t = Ok rows →
  (∀ r q, r ∈ t → Store.qualifies conds ps r = Ok q →
          Store.qualifies conds' ps' r = Ok (q && g r)) →
  Store.select_where conds' ps' t = Ok (filter (λ r, Is_true (g r)) rows).
Proof.
  revert rows. induction t as [|x t IH]; intros rows.
  - intros [= <-] _. done.
  - cbn [Store.select_where].
    destruct (Store.qualifies conds ps x) as [q|] eqn:Hq; [|done].
    cbn [mbind result_bind].
    destruct (Store.select_where conds ps t) as [rest|]; [|done].
    cbn [mbind result_bind]. intros [= <-] H.
    rewrite (H x q) by (done || left). cbn [mbind result_bind].
    rewrite (IH rest eq_refl) by (intros; apply H; [by right|done]).
    cbn [mbind result_bind]. f_equal.
    destruct q; cbn [andb]; [|done].
    rewrite filter_cons. destruct (g x); by case_decide.
Qed.

Lemma filter_normalize (g : gmap string json → bool) (rows : list Place.row) :
  normalize_place_from_db <$> filter (λ r, Is_true (g (Place.properties r))) rows
  = filter (λ x, Is_true (g (Api.properties x))) (normalize_place_from_db <$> rows).
Proof.
  induction rows as [|r rows IH]; [done|].
  rewrite fmap_cons, !filter_cons. cbn [normalize_place_from_db Api.properties].
  destruct (decide _); by rewrite ?fmap_cons, IH.
Qed.

Lemma diaper_match_natural r :
  count_natural_or_missing (Place.properties r) = true →
  diaper_match (Some "1") r = Ok (count_positive (Place.properties r))
  ∧ diaper_match (Some "0") r = Ok (count_zero_or_missing (Place.properties r))
  ∧ count_positive (Place.properties r)
    = negb (count_zero_or_missing (Place.properties r)).
Proof.
  unfold count_natural_or_missing, count_positive, count_zero_or_missing,
    diaper_match, diaper_table_count.
  destruct (Sql.field _ _) as [t|]; [|done].
  destruct (Sql.cast_int4 t) as [n|]; [|done]. cbn.
  intros Hn%Z.leb_le. repeat split.
  destruct (Z.eqb_spec n 0) as [->|]; [done|]. cbn. apply Z.ltb_lt. lia.
Qed.

Lemma places_match_flagged category city bbox p io r flag (g : bool) q :
  diaper_match (Some flag) r = Ok g →
  places_match category city bbox None p io r = Ok q →
  places_match category city bbox (Some flag) p io r = Ok (q && g).
Proof.
  unfold places_match. intros ->. cbn [diaper_match].
  rewrite and_then_true_r, and_then_ok.
  destruct (fresh_match _ _ && _ && _ && _); cbn [andb].
  - destruct g; cbn.
    + intros ->. by rewrite andb_true_r.
    + intros _. by rewrite andb_false_r.
  - by intros [= <-].
Qed.

Section Complement.

Variables (category : categories) (city bbox : option string)
          (p : option string) (io : bool) (table : list Place.row).

Lemma get_places_flagged flag (g : gmap string json → bool) res :
  (∀ r, r ∈ table →
        diaper_match (Some flag) r = Ok (g (Place.properties r))) →
  get_places category city bbox None p io table = Ok res →
  get_places category city bbox (Some flag) p io table
  = Ok (result_of_items
          (filter (λ x, Is_true (g (Api.properties x))) (items res))).
Proof.
  intros Hg. unfold get_places.
  destruct (places_builder category city bbox None p io) as [b|] eqn:Hb;
    [|done].
  destruct (places_builder category city bbox (Some flag) p io)
    as [b'|] eqn:Hb'.
  2:{ revert Hb Hb'. unfold places_builder.
      by destruct (bbox_filter bbox _). }
  cbn [mbind result_bind].
  destruct (Store.select_where _ _ table) as [rows|] eqn:Hs; [|done].
  cbn [mbind result_bind]. intros [= <-]. cbn [items].
  rewrite (select_where_refine _ _ _ _
             (λ r, g (Place.properties r)) _ _ Hs).
  - cbn [mbind result_bind]. by rewrite filter_normalize.
  - intros r q Hr Hq.
    pose proof (places_builder_admits _ _ _ _ _ _ b r Hb) as E.
    pose proof (places_builder_admits _ _ _ _ _ _ b' r Hb') as E'.
    unfold admits in E, E'. rewrite E'. rewrite E in Hq.
    by apply places_match_flagged; [apply Hg|].
Qed.

End Complement.

(** C8 (as amended). Over a table in which every [diaper_table_count] is
    missing or an integer that is not negative, and for criteria that are
    identical but for the diaper flag: flag ["1"] returns, of the rows
    returned without the flag, exactly those whose count is strictly
    positive, flag ["0"] exactly those whose count is zero or missing, and
    the two results are complements of each other over those rows. *)
Theorem diaper_flags_are_complements_on_natural_counts
    category city bbox p io table res :
  (∀ r, r ∈ table → count_natural_or_missing (Place.properties r) = true) →
  get_places category city bbox None p io table = Ok res →
  ∃ present absent,
    get_places category city bbox (Some "1") p io table = Ok present
    ∧ get_places category city bbox (Some "0") p io table = Ok absent
    ∧ items present
      = filter (λ x, Is_true (count_positive (Api.properties x))) (items res)
    ∧ items absent
      = filter (λ x, Is_true (count_zero_or_missing (Api.properties x)))
          (items res)
    ∧ ∀ x, x ∈ items res → (x ∈ items present ↔ x ∉ items absent).
Proof.
  intros Hnat Hres. do 2 eexists.
  split.
  { apply (get_places_flagged category city bbox p io table "1"
             count_positive res); [|done].
    intros r Hr. by apply diaper_match_natural, Hnat. }
  split.
  { apply (get_places_flagged category city bbox p io table "0"
             count_zero_or_missing res); [|done].
    intros r Hr. by apply diaper_match_natural, Hnat. }
  split; [done|]. split; [done|].
  intros x Hx. cbn [items result_of_items].
  rewrite !list_elem_of_filter.
  destruct (get_places_sound _ _ _ _ _ _ _ _ _ Hres Hx) as (r & Hr & -> & _).
  cbn [normalize_place_from_db Api.properties].
  destruct (diaper_match_natural r (Hnat r Hr)) as (_ & _ & ->).
  destruct (count_zero_or_missing (Place.properties r)); cbn; tauto.
Qed.

Lemma diaper_flags_are_complements_on_natural_counts_witness :
  ∃ present absent,
    get_places NoCategory None None (Some "1") None true
      [Sample.bare; Sample.three_tables] = Ok present
    ∧ get_places NoCategory None None (Some "0") None true
        [Sample.bare; Sample.three_tables] = Ok absent
    ∧ items present
      = filter (λ x, Is_true (count_positive (Api.properties x)))
          (items (places_of [Sample.bare; Sample.three_tables]))
    ∧ items absent
      = filter (λ x, Is_true (count_zero_or_missing (Api.properties x)))
          (items (places_of [Sample.bare; Sample.three_tables]))
    ∧ ∀ x, x ∈ items (places_of [Sample.bare; Sample.three_tables]) →
           (x ∈ items present ↔ x ∉ items absent).
Proof.
  apply (diaper_flags_are_complements_on_natural_counts
           NoCategory None None None true [Sample.bare; Sample.three_tables]).
  - intros r [->|[->|[]%elem_of_nil]%elem_of_cons]%elem_of_cons; reflexivity.
  - reflexivity.
Defined.

(** C8 (counterexample). A count of [-1] is neither strictly positive nor
    zero nor missing: the row is returned without the flag and by neither
    flag, so the two results are not complements. *)
Lemma negative_count_in_neither_result :
  get_places NoCategory None None None None true [Sample.negative]
  = Ok (places_of [Sample.negative])
  ∧ get_places NoCategory None None (Some "1") None true [Sample.negative]
    = Ok (places_of [])
  ∧ get_places NoCategory None None (Some "0") None true [Sample.negative]
    = Ok (places_of []).
Proof. repeat split; reflexivity. Qed.

(** ** C9: the statement text and the user's values *)

Section Texts.

Variable b : builder.

Lemma freshness_filter_texts io :
  sql <$> conditions (freshness_filter io b)
  = (sql <$> conditions b)
    ++ (sql <$> conditions
          (freshness_filter io {| conditions := []; params := [] |}))
  ∧ params (freshness_filter io b) = params b.
Proof.
  destruct io; cbn.
  - by rewrite !app_nil_r.
  - by rewrite fmap_app, app_nil_r.
Qed.

Lemma category_filter_texts category :
  sql <$> conditions (category_filter category b)
  = (sql <$> conditions b) ++ category_texts (shape_of category)
  ∧ params (category_filter category b)
    = params b ++ (PStr <$> category_values category).
Proof.
  destruct category as [|[|x l]|s]; cbn; rewrite ?app_nil_r; try done.
  - by rewrite fmap_app.
  - destruct (String.eqb s ""); cbn; rewrite ?app_nil_r; try done.
    by rewrite fmap_app.
Qed.

Lemma city_filter_texts city :
  sql <$> conditions (city_filter city b)
  = (sql <$> conditions b)
    ++ (if truthy city then [sql (Clause.city_eq 0)] else [])
  ∧ params (city_filter city b) = params b ++ (PStr <$> city_values city).
Proof.
  unfold city_filter, city_values.
  destruct city as [c|]; [|by rewrite !app_nil_r].
  destruct (truthy (Some c)); cbn; rewrite ?app_nil_r; try done.
  by rewrite fmap_app.
Qed.

Lemma bbox_filter_texts bbox b' :
  bbox_filter bbox b = Ok b' →
  sql <$> conditions b'
  = (sql <$> conditions b)
    ++ (if truthy bbox then [sql (Clause.within 0)] else [])
  ∧ params b' = params b ++ (PFloat <$> bbox_values bbox).
Proof.
  unfold bbox_filter, bbox_values.
  destruct bbox as [s|]; [|intros [= <-]; by rewrite !app_nil_r].
  destruct (truthy (Some s)); [|intros [= <-]; by rewrite !app_nil_r].
  destruct (parse_bbox s) as [fs|]; [|done].
  cbn [mbind result_bind]. intros [= <-]. cbn. by rewrite fmap_app.
Qed.

Lemma diaper_filter_texts d :
  sql <$> conditions (diaper_filter d b)
  = (sql <$> conditions b)
    ++ (sql <$> conditions
          (diaper_filter d {| conditions := []; params := [] |}))
  ∧ params (diaper_filter d b) = params b.
Proof.
  unfold diaper_filter. destruct d as [f|]; [|by rewrite !app_nil_r].
  destruct (String.eqb f "1"); [cbn; by rewrite fmap_app, app_nil_r|].
  destruct (String.eqb f "0"); [cbn; by rewrite fmap_app, app_nil_r|].
  by rewrite !app_nil_r.
Qed.

Lemma parking_filter_texts p :
  sql <$> conditions (parking_filter p b)
  = (sql <$> conditions b)
    ++ (sql <$> conditions
          (parking_filter p {| conditions := []; params := [] |}))
  ∧ params (parking_filter p b) = params b.
Proof.
  unfold parking_filter. destruct p as [f|]; [|by rewrite !app_nil_r].
  destruct (String.eqb f "1"); [cbn; by rewrite fmap_app, app_nil_r|].
  destruct (String.eqb f "0"); [cbn; by rewrite fmap_app, app_nil_r|].
  by rewrite !app_nil_r.
Qed.

End Texts.

Lemma with_conditions_texts base cs cs' :
  sql <$> cs = sql <$> cs' → with_conditions base cs = with_conditions base cs'.
Proof.
  unfold with_conditions. intros H.
  destruct cs, cs'; try done. by rewrite H.
Qed.

Lemma places_builder_texts category city bbox d p io b :
  places_builder category city bbox d p io = Ok b →
  sql <$> conditions b
  = shape_texts (shape_of category) (truthy city) (truthy bbox) d p io
  ∧ params b
    = (PStr <$> category_values category)
      ++ (PStr <$> city_values city) ++ (PFloat <$> bbox_values bbox).
Proof.
  unfold places_builder, shape_texts.
  set (b0 := {| conditions := []; params := [] |}).
  destruct (freshness_filter_texts b0 io) as [T1 P1].
  destruct (category_filter_texts (freshness_filter io b0) category)
    as [T2 P2].
  destruct (city_filter_texts
              (category_filter category (freshness_filter io b0)) city)
    as [T3 P3].
  destruct (bbox_filter bbox _) as [b4|] eqn:Hbox; [|done].
  cbn [mbind result_bind].
  destruct (bbox_filter_texts _ bbox b4 Hbox) as [T4 P4].
  destruct (diaper_filter_texts b4 d) as [T5 P5].
  destruct (parking_filter_texts (diaper_filter d b4) p) as [T6 P6].
  intros [= <-]. split.
  - rewrite T6, T5, T4, T3, T2, T1. cbn [conditions b0 fmap list_fmap app].
    by rewrite <- !app_assoc.
  - rewrite P6, P5, P4, P3, P2, P1. cbn [params b0 app].
    by rewrite <- !app_assoc.
Qed.

(** C9. Two criteria of the same shape (as many category entries, a city
    in both or in neither, a box in both or in neither, the same flags and
    the same [include_outdated]) for which [build_places_query] returns
    give the same statement text, whatever the category names, the city
    and the box are; those values are returned in the parameter list, in
    the order of their placeholders. *)
Theorem statement_text_depends_on_shape_only
    category1 city1 bbox1 category2 city2 bbox2 d p io q1 ps1 q2 ps2 :
  shape_of category1 = shape_of category2 →
  truthy city1 = truthy city2 →
  truthy bbox1 = truthy bbox2 →
  build_places_query category1 city1 bbox1 d p io = Ok (q1, ps1) →
  build_places_query category2 city2 bbox2 d p io = Ok (q2, ps2) →
  q1 = q2
  ∧ ps1 = (PStr <$> category_values category1)
          ++ (PStr <$> city_values city1) ++ (PFloat <$> bbox_values bbox1)
  ∧ ps2 = (PStr <$> category_values category2)
          ++ (PStr <$> city_values city2) ++ (PFloat <$> bbox_values bbox2).
Proof.
  intros Hcat Hcity Hbox. unfold build_places_query.
  destruct (places_builder category1 city1 bbox1 d p io) as [b1|] eqn:H1;
    [|done].
  destruct (places_builder category2 city2 bbox2 d p io) as [b2|] eqn:H2;
    [|done].
  cbn [mbind result_bind]. intros [= <- <-] [= <- <-].
  destruct (places_builder_texts _ _ _ _ _ _ _ H1) as [T1 P1].
  destruct (places_builder_texts _ _ _ _ _ _ _ H2) as [T2 P2].
  split; [|by split].
  apply with_conditions_texts. rewrite T1, T2. by rewrite Hcat, Hcity, Hbox.
Qed.

Lemma statement_text_depends_on_shape_only_witness :
  ∃ q ps1 ps2,
    build_places_query (CategoryList ["park"; "toilet"]) (Some "taipei")
      (Some "0,0,2,2") (Some "1") (Some "0") false = Ok (q, ps1)
    ∧ build_places_query (CategoryList ["x' OR 1=1 --"; "%s"])
        (Some "'; DROP TABLE places; --") (Some "1,1,3,3") (Some "1")
        (Some "0") false = Ok (q, ps2).
Proof.
  destruct (build_places_query (CategoryList ["park"; "toilet"])
              (Some "taipei") (Some "0,0,2,2") (Some "1") (Some "0") false)
    as [[q1 ps1]|] eqn:H1; [|discriminate H1].
  destruct (build_places_query (CategoryList ["x' OR 1=1 --"; "%s"])
              (Some "'; DROP TABLE places; --") (Some "1,1,3,3") (Some "1")
              (Some "0") false)
    as [[q2 ps2]|] eqn:H2; [|discriminate H2].
  destruct (statement_text_depends_on_shape_only
              (CategoryList ["park"; "toilet"]) (Some "taipei")
              (Some "0,0,2,2")
              (CategoryList ["x' OR 1=1 --"; "%s"])
              (Some "'; DROP TABLE places; --") (Some "1,1,3,3")
              (Some "1") (Some "0") false q1 ps1 q2 ps2
              eq_refl eq_refl eq_refl H1 H2) as [-> _].
  by exists q2, ps1, ps2.
Defined.

(** ** C10: empty district names *)

Lemma omap_filter_dropped {A B} (f : A → option B) (P : A → Prop)
    `{∀ x, Decision (P x)} (l : list A) :
  (∀ x, ¬ P x → f x = None) → omap f (filter P l) = omap f l.
Proof.
  intros Hf. induction l as [|x l IH]; [done|].
  rewrite filter_cons. destruct (decide (P x)) as [|Hx]; cbn.
  - by rewrite IH.
  - by rewrite (Hf x Hx), IH.
Qed.

Lemma blank_group_dropped keys pre post :
  keys = pre ++ Some "" :: post →
  omap district_aggregate (Store.group_count Store.key_leb keys)
  = omap district_aggregate (Store.group_count Store.key_leb (pre ++ post)).
Proof.
  intros ->.
  assert (Hdrop : ∀ e : option string * nat,
            ¬ e.1 ≠ Some "" → district_aggregate e = None).
  { intros [k n] Hk. cbn in Hk.
    destruct (decide (k = Some "")) as [->|]; [done|]. by destruct Hk. }
  rewrite <- (omap_filter_dropped _ (λ e, e.1 ≠ Some "") _ Hdrop).
  rewrite <- (omap_filter_dropped _ (λ e, e.1 ≠ Some "")
                (Store.group_count Store.key_leb (pre ++ post)) Hdrop).
  f_equal. apply (group_count_insert_others Store.key_leb).
Qed.

(** C10. Every entry of a district breakdown has a non-empty name; a row
    whose [district] is the empty string passes the statement's non-null
    condition and yet leaves no trace in the result of list-districts. *)
Theorem district_names_are_never_empty of_city category io :
  (∀ table res a,
     get_districts of_city category io table = Ok res →
     a ∈ districts res → District.name a ≠ "")
  ∧ (∀ pre post r ps,
       Place.properties r !! "district" = Some (JString "") →
       holds ps r (meaning Clause.district_not_null) = Ok true
       ∧ get_districts of_city category io (pre ++ r :: post)
         = get_districts of_city category io (pre ++ post)).
Proof.
  split.
  - intros table res a. unfold get_districts.
    destruct (String.eqb of_city ""); [done|].
    destruct (Store.select_where _ _ _) as [rows|]; [|done].
    cbn [mbind result_bind]. intros [= <-]. cbn [districts].
    intros ([k n] & _ & Hagg)%list_elem_of_omap.
    by apply district_aggregate_Some in Hagg as (s & _ & Hs & ->).
  - intros pre post r ps Hblank.
    assert (Hd : district r = Some "")
      by (unfold district, Sql.field; by rewrite Hblank).
    split.
    { unfold holds. cbn. fold (district r). by rewrite Hd. }
    destruct (districts_match of_city category io r) eqn:Hm;
      [|by apply get_districts_skips].
    destruct (decide (of_city = "")) as [->|Hc]; [done|].
    rewrite !get_districts_closed by done. do 2 f_equal.
    rewrite (filter_keep _ _ _ _ Hm), filter_app.
    rewrite !fmap_app, fmap_cons, Hd.
    by apply blank_group_dropped.
Qed.

Lemma district_names_are_never_empty_witness :
  (∀ res a,
     get_districts "taipei" NoCategory true [Sample.blank_district] = Ok res →
     a ∈ districts res → District.name a ≠ "")
  ∧ get_districts "taipei" NoCategory true [Sample.blank_district]
    = get_districts "taipei" NoCategory true [].
Proof.
  destruct (district_names_are_never_empty "taipei" NoCategory true)
    as [Hnames Hblank].
  split; [apply Hnames|].
  apply (Hblank [] [] Sample.blank_district []). reflexivity.
Defined.

(** * Further properties of the service *)

(** ** Requests without effect *)

Lemma ineffective_diaper flag b :
  ineffective flag → diaper_filter flag b = b.
Proof.
  intros [H0 H1]. unfold diaper_filter. destruct flag as [f|]; [|done].
  destruct (String.eqb_spec f "1") as [->|]; [done|].
  by destruct (String.eqb_spec f "0") as [->|].
Qed.

Lemma ineffective_parking flag b :
  ineffective flag → parking_filter flag b = b.
Proof.
  intros [H0 H1]. unfold parking_filter. destruct flag as [f|]; [|done].
  destruct (String.eqb_spec f "1") as [->|]; [done|].
  by destruct (String.eqb_spec f "0") as [->|].
Qed.

Lemma places_builder_ineffective category city bbox d p io :
  ineffective d → ineffective p →
  places_builder category city bbox d p io
  = places_builder category city bbox None None io.
Proof.
  intros Hd Hp. unfold places_builder.
  destruct (bbox_filter bbox _) as [b|]; [|done]. cbn [mbind result_bind].
  by rewrite (ineffective_diaper d b Hd), (ineffective_parking p b Hp).
Qed.

(** X1. A flag other than ["0"] and ["1"] is ignored without error: the
    statement, its parameters and the result of list-places are those of
    the request without the flag. *)
Theorem unknown_flags_are_ignored category city bbox d p io :
  ineffective d → ineffective p →
  build_places_query category city bbox d p io
  = build_places_query category city bbox None None io
  ∧ ∀ table,
      get_places category city bbox d p io table
      = get_places category city bbox None None io table.
Proof.
  intros Hd Hp. unfold build_places_query, get_places.
  by rewrite (places_builder_ineffective category city bbox d p io Hd Hp).
Qed.

Lemma unknown_flags_are_ignored_witness :
  build_places_query NoCategory None None (Some "yes") (Some "") false
  = build_places_query NoCategory None None None None false
  ∧ ∀ table,
      get_places NoCategory None None (Some "yes") (Some "") false table
      = get_places NoCategory None None None None false table.
Proof.
  apply (unknown_flags_are_ignored NoCategory None None (Some "yes") (Some "")
           false); split; discriminate.
Defined.

Lemma category_match_no_filter category r :
  shape_of category = NoFilter → category_match category r = true.
Proof.
  destruct category as [|[|??]|s]; try done. cbn.
  by destruct (String.eqb s "").
Qed.

Lemma city_match_absent city r : truthy city = false → city_match city r = true.
Proof. destruct city; [|done]. unfold city_match. by intros ->. Qed.

Lemma bbox_match_absent bbox r : truthy bbox = false → bbox_match bbox r = true.
Proof. destruct bbox; [|done]. unfold bbox_match. by intros ->. Qed.

Lemma places_builder_no_bbox category city bbox d p io :
  truthy bbox = false →
  is_ok (places_builder category city bbox d p io) = true.
Proof.
  intros H. unfold places_builder, bbox_filter.
  destruct bbox; [|done]. by rewrite H.
Qed.

(** X2. With [include_outdated] set and no criterion that takes effect (no
    category or an empty list, no city or an empty one, no box or an empty
    one, no recognised flag), list-places returns every row of the table
    once, in table order. *)
Theorem list_places_returns_the_whole_table category city bbox d p table :
  shape_of category = NoFilter → truthy city = false → truthy bbox = false →
  ineffective d → ineffective p →
  get_places category city bbox d p true table = Ok (places_of table).
Proof.
  intros Hcat Hcity Hbox Hd Hp. unfold get_places.
  rewrite (places_builder_ineffective category city bbox d p true Hd Hp).
  change (get_places category city bbox None None true table
          = Ok (places_of table)).
  rewrite (get_places_filter _ _ _ _ _ _ (λ _, true)).
  - do 2 f_equal. induction table as [|r t IH]; [done|].
    rewrite filter_cons_True by done. by rewrite IH.
  - by apply places_builder_no_bbox.
  - intros r _. rewrite places_match_plain.
    by rewrite category_match_no_filter, city_match_absent, bbox_match_absent.
Qed.

Lemma list_places_returns_the_whole_table_witness :
  get_places (CategoryList []) (Some "") (Some "") (Some "2") None true
    [Sample.outdated; Sample.words; Sample.negative]
  = Ok (places_of [Sample.outdated; Sample.words; Sample.negative]).
Proof.
  apply (list_places_returns_the_whole_table (CategoryList []) (Some "")
           (Some "") (Some "2") None);
    [reflexivity | reflexivity | reflexivity | split; discriminate
    | split; discriminate].
Defined.

(** ** What list-places returns *)

Lemma select_where_sublist conds ps table rows :
  Store.select_where conds ps table = Ok rows → rows `sublist_of` table.
Proof.
  revert rows. induction table as [|r t IH]; intros rows.
  - by intros [= <-].
  - cbn [Store.select_where].
    destruct (Store.qualifies conds ps r) as [q|]; [|done].
    cbn [mbind result_bind].
    destruct (Store.select_where conds ps t) as [rest|]; [|done].
    cbn [mbind result_bind]. intros [= <-].
    destruct q; [apply sublist_skip | apply sublist_cons]; by apply IH.
Qed.

(** X3. Whatever the criteria, a result of list-places is made of rows of the
    table, each at most once and in table order, normalised; [count] is the
    number of items. Nothing is invented, duplicated or reordered. *)
Theorem list_places_returns_rows_in_table_order
    category city bbox d p io table res :
  get_places category city bbox d p io table = Ok res →
  ∃ rows,
    rows `sublist_of` table
    ∧ items res = normalize_place_from_db <$> rows
    ∧ count res = length rows
    ∧ (count res ≤ length table)%nat.
Proof.
  unfold get_places.
  destruct (places_builder category city bbox d p io) as [b|]; [|done].
  cbn [mbind result_bind].
  destruct (Store.select_where _ _ table) as [rows|] eqn:Hs; [|done].
  cbn [mbind result_bind]. intros [= <-].
  apply select_where_sublist in Hs.
  exists rows. cbn [items count]. rewrite length_fmap.
  repeat split; [done|]. by apply sublist_length.
Qed.

Lemma list_places_returns_rows_in_table_order_witness :
  ∃ rows,
    rows `sublist_of` [Sample.bare; Sample.three_tables; Sample.no_tables]
    ∧ items (places_of [Sample.three_tables])
      = normalize_place_from_db <$> rows
    ∧ count (places_of [Sample.three_tables]) = length rows
    ∧ (count (places_of [Sample.three_tables])
       ≤ length [Sample.bare; Sample.three_tables; Sample.no_tables])%nat.
Proof.
  apply (list_places_returns_rows_in_table_order
           NoCategory None None (Some "1") None true).
  reflexivity.
Defined.

(** ** How the filters compose *)





Lemma bbox_filter_outcome bbox b b' :
  match bbox_filter bbox b, bbox_filter bbox b' with
  | Ok _, Ok _ => True
  | Err e, Err e' => e = e'
  | _, _ => False
  end.
Proof.
  unfold bbox_filter. destruct bbox as [s|]; [|done].
  destruct (truthy (Some s)); [|done]. by destruct (parse_bbox s).
Qed.

Lemma places_builder_outcome category category' city city' bbox d d' p p' io io' :
  match places_builder category city bbox d p io,
        places_builder category' city' bbox d' p' io' with
  | Ok _, Ok _ => True
  | Err e, Err e' => e = e'
  | _, _ => False
  end.
Proof.
  unfold places_builder.
  pose proof (bbox_filter_outcome bbox
    (city_filter city (category_filter category
       (freshness_filter io {| conditions := []; params := [] |})))
    (city_filter city' (category_filter category'
       (freshness_filter io' {| conditions := []; params := [] |})))) as H.
  by destruct (bbox_filter bbox _), (bbox_filter bbox _).
Qed.




(** ** Freshness against the other criteria *)

Lemma places_match_outdated_flag category city bbox d p r q :
  places_match category city bbox d p true r = Ok q →
  places_match category city bbox d p false r
  = Ok (q && props_fresh (Place.properties r)).
Proof.
  rewrite !places_match_fresh.
  change (fresh_match true r) with true.
  change (fresh_match false r) with (props_fresh (Place.properties r)).
  intros ->. destruct (props_fresh _); [by rewrite andb_true_r|].
  by rewrite andb_false_r.
Qed.

(** X6. When a request succeeds with [include_outdated] set, the same request
    without it succeeds too and returns the same places less the outdated
    ones, in the same order. *)
Theorem excluding_outdated_filters_the_inclusive_result
    category city bbox d p table res :
  get_places category city bbox d p true table = Ok res →
  get_places category city bbox d p false table
  = Ok (result_of_items
          (filter (λ x, Is_true (props_fresh (Api.properties x)))
             (items res))).
Proof.
  unfold get_places.
  pose proof (places_builder_outcome category category city city bbox
                d d p p true false) as Ho.
  destruct (places_builder category city bbox d p true) as [b|] eqn:Hb;
    [|done].
  destruct (places_builder category city bbox d p false) as [b'|] eqn:Hb';
    [|done].
  cbn [mbind result_bind].
  destruct (Store.select_where _ _ table) as [rows|] eqn:Hs; [|done].
  cbn [mbind result_bind]. intros [= <-]. cbn [items].
  rewrite (select_where_refine _ _ _ _
             (λ r, props_fresh (Place.properties r)) _ _ Hs).
  - cbn [mbind result_bind]. by rewrite filter_normalize.
  - intros r q _ Hq.
    pose proof (places_builder_admits _ _ _ _ _ _ b r Hb) as E.
    pose proof (places_builder_admits _ _ _ _ _ _ b' r Hb') as E'.
    unfold admits in E, E'. rewrite E'. rewrite E in Hq.
    by apply places_match_outdated_flag.
Qed.

Lemma excluding_outdated_filters_the_inclusive_result_witness :
  get_places NoCategory None None None None false
    [Sample.outdated; Sample.bare]
  = Ok (result_of_items
          (filter (λ x, Is_true (props_fresh (Api.properties x)))
             (items (places_of [Sample.outdated; Sample.bare])))).
Proof.
  apply (excluding_outdated_filters_the_inclusive_result
           NoCategory None None None None [Sample.outdated; Sample.bare]).
  reflexivity.
Defined.

(** ** Placeholders and parameters *)

Lemma ends_with_percent_app a b :
  ends_with_percent (a +:+ b)
  = if String.eqb b "" then ends_with_percent a else ends_with_percent b.
Proof.
  induction a as [|c a IH]; cbn.
  - by destruct b.
  - destruct a as [|c' a]; cbn in *.
    + destruct b as [|c'' b]; [done|]. done.
    + exact IH.
Qed.

Lemma count_placeholders_app_aux b n :
  ∀ a, (String.length a ≤ n)%nat → ends_with_percent a = false →
       count_placeholders (a +:+ b) = count_placeholders a + count_placeholders b.
Proof.
  induction n as [|n IH]; intros a Hn He.
  - destruct a; [done|]. cbn in Hn. lia.
  - destruct a as [|c a]; [done|].
    destruct (Ascii.eqb_spec c "%") as [->|Hc].
    + destruct a as [|c' a]; [done|].
      destruct (Ascii.eqb_spec c' "s") as [->|Hc'].
      * change (String "%" (String "s" a) +:+ b)
          with (String "%" (String "s" (a +:+ b))).
        cbn [count_placeholders]. cbn in Hn.
        rewrite (IH a); [done|lia|]. revert He. cbn. by destruct a.
      * assert (E : ∀ t, count_placeholders (String "%" (String c' t))
                         = count_placeholders (String c' t)).
        { intros t. cbn [count_placeholders].
          destruct c' as [[] [] [] [] [] [] [] []]; try done. }
        change (String "%" (String c' a) +:+ b)
          with (String "%" (String c' (a +:+ b))).
        rewrite !E.
        change (String c' (a +:+ b)) with (String c' a +:+ b).
        apply IH; [cbn in *; lia|exact He].
    + assert (E : ∀ t, count_placeholders (String c t) = count_placeholders t).
      { intros t. cbn [count_placeholders].
        destruct c as [[] [] [] [] [] [] [] []]; try done. }
      change (String c a +:+ b) with (String c (a +:+ b)).
      rewrite !E. apply IH; [cbn in Hn; lia|].
      revert He. cbn. destruct a; [|done]. done.
Qed.

Lemma count_placeholders_app a b :
  ends_with_percent a = false →
  count_placeholders (a +:+ b) = count_placeholders a + count_placeholders b.
Proof. by apply (count_placeholders_app_aux b (String.length a)). Qed.

Lemma count_placeholders_list n suffix :
  count_placeholders (String.concat "," (replicate n "%s") +:+ suffix)
  = n + count_placeholders suffix.
Proof.
  induction n as [|n IH]; [done|].
  destruct n as [|n]; [done|].
  change (replicate (S (S n)) "%s") with ("%s" :: replicate (S n) "%s").
  change (count_placeholders
            (String.concat "," ("%s" :: replicate (S n) "%s") +:+ suffix))
    with (S (count_placeholders
               (String.concat "," (replicate (S n) "%s") +:+ suffix))).
  by rewrite IH.
Qed.

Lemma category_in_marks i n :
  count_placeholders (sql (Clause.category_in i n)) = n
  ∧ ends_with_percent (sql (Clause.category_in i n)) = false.
Proof.
  cbn [sql Clause.category_in]. split.
  - change (count_placeholders
              ("category IN (" +:+ String.concat "," (replicate n "%s") +:+ ")"))
      with (count_placeholders (String.concat "," (replicate n "%s") +:+ ")")).
    rewrite count_placeholders_list. cbn. lia.
  - rewrite !ends_with_percent_app.
    by destruct (String.eqb _ _).
Qed.

Lemma and_prefix_marks x :
  count_placeholders (" AND " +:+ x) = count_placeholders x
  ∧ String.eqb (" AND " +:+ x) "" = false
  ∧ ends_with_percent (" AND " +:+ x) = ends_with_percent x.
Proof. repeat split. rewrite ends_with_percent_app. by destruct x. Qed.

Lemma concat_closed texts :
  Forall closed_text texts →
  closed_text (String.concat " AND " texts)
  ∧ count_placeholders (String.concat " AND " texts) = tally texts.
Proof.
  unfold closed_text, tally.
  induction 1 as [|x l Hx Hl [IHe IHc]]; [done|].
  destruct l as [|y l].
  - cbn. split; [done|lia].
  - change (String.concat " AND " (x :: y :: l))
      with (x +:+ " AND " +:+ String.concat " AND " (y :: l)).
    split.
    + destruct (and_prefix_marks (String.concat " AND " (y :: l)))
        as (_ & E1 & E2).
      by rewrite ends_with_percent_app, E1, E2.
    + destruct (and_prefix_marks (String.concat " AND " (y :: l)))
        as (E0 & _ & _).
      rewrite count_placeholders_app by done. rewrite E0, IHc. done.
Qed.

Lemma with_conditions_marks base cs :
  closed_text base → Forall closed_text (sql <$> cs) →
  closed_text (with_conditions base cs)
  ∧ count_placeholders (with_conditions base cs)
    = count_placeholders base + tally (sql <$> cs).
Proof.
  intros Hb Hcs. destruct (concat_closed _ Hcs) as [He Hc].
  unfold with_conditions. destruct cs as [|c cs].
  - split; [done|]. cbn. lia.
  - split.
    + destruct (and_prefix_marks (String.concat " AND " (sql <$> c :: cs)))
        as (_ & E1 & E2).
      unfold closed_text in *. by rewrite ends_with_percent_app, E1, E2.
    + destruct (and_prefix_marks (String.concat " AND " (sql <$> c :: cs)))
        as (E0 & _ & _).
      rewrite count_placeholders_app by done. by rewrite E0, Hc.
Qed.

Lemma category_texts_marks sh :
  Forall closed_text (category_texts sh)
  ∧ tally (category_texts sh) = shape_arity sh.
Proof.
  destruct sh as [|n|];
    [split; [constructor|reflexivity] |
    |split; [by repeat constructor|reflexivity]].
  destruct (category_in_marks 0 n) as [Hc He].
  split; [by repeat constructor|]. unfold tally. cbn [category_texts fmap list_fmap sum_list_with].
  rewrite Hc. cbn. lia.
Qed.

Lemma category_values_length category :
  length (category_values category) = shape_arity (shape_of category).
Proof.
  destruct category as [|[|??]|s]; try done. cbn.
  by destruct (String.eqb s "").
Qed.

Lemma freshness_texts_marks io :
  Forall closed_text
    (sql <$> conditions (freshness_filter io {| conditions := []; params := [] |}))
  ∧ tally (sql <$> conditions
             (freshness_filter io {| conditions := []; params := [] |})) = 0.
Proof.
  destruct io; split; try (by repeat constructor); reflexivity.
Qed.

Lemma diaper_texts_marks d :
  Forall closed_text
    (sql <$> conditions (diaper_filter d {| conditions := []; params := [] |}))
  ∧ tally (sql <$> conditions
             (diaper_filter d {| conditions := []; params := [] |})) = 0.
Proof.
  unfold diaper_filter. destruct d as [f|];
    [|split; [constructor|reflexivity]].
  destruct (String.eqb f "1"); [split; [by repeat constructor|reflexivity]|].
  destruct (String.eqb f "0"); split;
    try (by repeat constructor); reflexivity.
Qed.

Lemma parking_texts_marks p :
  Forall closed_text
    (sql <$> conditions (parking_filter p {| conditions := []; params := [] |}))
  ∧ tally (sql <$> conditions
             (parking_filter p {| conditions := []; params := [] |})) = 0.
Proof.
  unfold parking_filter. destruct p as [f|];
    [|split; [constructor|reflexivity]].
  destruct (String.eqb f "1"); [split; [by repeat constructor|reflexivity]|].
  destruct (String.eqb f "0"); split;
    try (by repeat constructor); reflexivity.
Qed.

Lemma tally_app l1 l2 : tally (l1 ++ l2) = tally l1 + tally l2.
Proof. unfold tally. by rewrite fmap_app, sum_list_with_app. Qed.

Lemma shape_texts_marks sh with_city with_bbox d p io :
  Forall closed_text (shape_texts sh with_city with_bbox d p io)
  ∧ tally (shape_texts sh with_city with_bbox d p io)
    = shape_arity sh + (if with_city then 1 else 0)
      + (if with_bbox then 4 else 0).
Proof.
  unfold shape_texts.
  destruct (freshness_texts_marks io) as [F1 T1].
  destruct (category_texts_marks sh) as [F2 T2].
  destruct (diaper_texts_marks d) as [F5 T5].
  destruct (parking_texts_marks p) as [F6 T6].
  split.
  - rewrite !Forall_app. repeat split; try done.
    + destruct with_city; by repeat constructor.
    + destruct with_bbox; by repeat constructor.
  - rewrite !tally_app, T1, T2, T5, T6.
    destruct with_city, with_bbox; cbn; lia.
Qed.

Lemma bbox_values_length bbox b b' :
  bbox_filter bbox b = Ok b' →
  length (bbox_values bbox) = if truthy bbox then 4 else 0.
Proof.
  unfold bbox_filter, bbox_values. destruct bbox as [s|]; [|done].
  destruct (truthy (Some s)); [|done].
  destruct (parse_bbox s) as [fs|] eqn:Hp; [|done].
  by destruct (parse_bbox_four _ _ Hp) as (?&?&?&?&->).
Qed.

(** X7. The statement that [build_places_query] returns has exactly as many
    [%s] placeholders as the parameter list has values. *)
Theorem places_statement_has_one_placeholder_per_parameter
    category city bbox d p io q ps :
  build_places_query category city bbox d p io = Ok (q, ps) →
  count_placeholders q = length ps.
Proof.
  unfold build_places_query.
  destruct (places_builder category city bbox d p io) as [b|] eqn:Hb; [|done].
  cbn [mbind result_bind]. intros [= <- <-].
  destruct (places_builder_texts _ _ _ _ _ _ _ Hb) as [T P].
  destruct (shape_texts_marks (shape_of category) (truthy city) (truthy bbox)
              d p io) as [F S].
  rewrite <- T in F, S.
  destruct (with_conditions_marks places_base_query (conditions b) eq_refl F)
    as [_ ->].
  rewrite S, P, !length_app, !length_fmap, category_values_length.
  assert (Hbox : length (bbox_values bbox) = if truthy bbox then 4 else 0).
  { revert Hb. unfold places_builder.
    destruct (bbox_filter bbox _) as [b4|] eqn:Hf; [|done].
    intros _. by apply (bbox_values_length _ _ _ Hf). }
  rewrite Hbox. unfold city_values.
  destruct city as [c|]; [|cbn; lia].
  destruct (truthy (Some c)); cbn; lia.
Qed.

Lemma places_statement_has_one_placeholder_per_parameter_witness :
  ∃ q ps,
    build_places_query (CategoryList ["park"; "toilet"]) (Some "taipei")
      (Some "0,0,2,2") (Some "1") (Some "0") false = Ok (q, ps)
    ∧ count_placeholders q = 7 ∧ length ps = 7.
Proof.
  destruct (build_places_query (CategoryList ["park"; "toilet"])
              (Some "taipei") (Some "0,0,2,2") (Some "1") (Some "0") false)
    as [[q ps]|] eqn:H; [|discriminate H].
  exists q, ps. split; [done|].
  rewrite (places_statement_has_one_placeholder_per_parameter _ _ _ _ _ _ _ _ H).
  by injection H as <- <-.
Defined.

Lemma aggregate_builder_texts b category io :
  sql <$> conditions (category_filter category (freshness_filter io b))
  = (sql <$> conditions b)
    ++ (sql <$> conditions
          (freshness_filter io {| conditions := []; params := [] |}))
    ++ category_texts (shape_of category)
  ∧ params (category_filter category (freshness_filter io b))
    = params b ++ (PStr <$> category_values category).
Proof.
  destruct (freshness_filter_texts b io) as [T1 P1].
  destruct (category_filter_texts (freshness_filter io b) category) as [T2 P2].
  by rewrite T2, P2, T1, P1, <- app_assoc.
Qed.

(** X8. The statements of list-cities and list-districts have exactly as many
    [%s] placeholders as parameters; the first parameter of the district
    statement is the city. *)
Theorem aggregate_statements_have_one_placeholder_per_parameter
    city category io :
  count_placeholders (build_cities_query category io).1
  = length (build_cities_query category io).2
  ∧ count_placeholders (build_districts_query city category io).1
    = length (build_districts_query city category io).2
  ∧ (build_districts_query city category io).2 !! 0 = Some (PStr city).
Proof.
  destruct (freshness_texts_marks io) as [F1 T1].
  destruct (category_texts_marks (shape_of category)) as [F2 T2].
  split; [|split].
  - unfold build_cities_query, cities_builder. cbn [fst snd].
    destruct (aggregate_builder_texts {| conditions := []; params := [] |}
                category io) as [T P].
    cbn [conditions params fmap list_fmap app] in T, P.
    assert (F : Forall closed_text
                  (sql <$> conditions
                     (category_filter category
                        (freshness_filter io
                           {| conditions := []; params := [] |}))))
      by (rewrite T; by apply Forall_app).
    destruct (with_conditions_marks cities_base_query _ eq_refl F) as [E C].
    rewrite count_placeholders_app, C, T, tally_app, T1, T2, P by exact E.
    rewrite length_fmap, category_values_length.
    change (count_placeholders cities_base_query) with 0.
    change (count_placeholders " GROUP BY city ORDER BY city") with 0. lia.
  - unfold build_districts_query, districts_builder. cbn [fst snd].
    destruct (aggregate_builder_texts
                {| conditions := []; params := [PStr city] |} category io)
      as [T P].
    cbn [conditions params fmap list_fmap app] in T, P.
    assert (F : Forall closed_text
                  (sql <$> conditions
                     (category_filter category
                        (freshness_filter io
                           {| conditions := []; params := [PStr city] |}))))
      by (rewrite T; by apply Forall_app).
    destruct (with_conditions_marks districts_base_query _ eq_refl F) as [E C].
    rewrite count_placeholders_app, C, T, tally_app, T1, T2, P by exact E.
    cbn [length]. rewrite length_fmap, category_values_length.
    change (count_placeholders districts_base_query) with 1.
    change (count_placeholders (_ +:+ _)) with 0. lia.
  - cbn [snd build_districts_query]. apply districts_builder_city.
Qed.

(** ** The aggregates as partitions *)

Section GroupStructure.

Context {K : Type} `{EqDecision K} (leb : K → K → bool).
Context `{!Transitive (λ a b, Is_true (leb a b)),
          !Total (λ a b, Is_true (leb a b))}.

Lemma group_count_keys (keys : list K) :
  (Store.group_count leb keys).*1
  = merge_sort (λ a b, Is_true (leb a b)) (remove_dups keys).
Proof.
  unfold Store.group_count.
  generalize (merge_sort (λ a b, Is_true (leb a b)) (remove_dups keys)).
  intros l. induction l as [|k l IH]; [done|]. cbn. by rewrite IH.
Qed.

Lemma group_count_NoDup (keys : list K) :
  NoDup (Store.group_count leb keys).*1.
Proof.
  rewrite group_count_keys, merge_sort_Permutation. apply NoDup_remove_dups.
Qed.

Lemma group_count_sorted (keys : list K) :
  StronglySorted (λ a b, Is_true (leb a b)) (Store.group_count leb keys).*1.
Proof. rewrite group_count_keys. apply StronglySorted_merge_sort; apply _. Qed.

Lemma sum_indicator (x : K) (D : list K) :
  NoDup D → x ∈ D →
  sum_list_with (λ k, if decide (k = x) then 1 else 0) D = 1.
Proof.
  induction 1 as [|y D Hy Hn IH]; [by intros ?%elem_of_nil|].
  intros [->|Hin]%elem_of_cons; cbn.
  - rewrite decide_True by done.
    assert (E : sum_list_with (λ k, if decide (k = y) then 1 else 0) D = 0).
    { clear IH Hn. induction D as [|z D IH]; [done|]. cbn.
      rewrite decide_False; [|intros ->; apply Hy; left].
      apply IH. intros H'. apply Hy. by right. }
    by rewrite E.
  - rewrite decide_False; [by rewrite IH|]. by intros ->.
Qed.

Lemma sum_occurrences (l D : list K) :
  NoDup D → (∀ x, x ∈ l → x ∈ D) →
  sum_list_with (λ k, occurrences k l) D = length l.
Proof.
  intros HD. induction l as [|x l IH]; intros Hsub.
  - clear. induction D as [|k D IHD]; [done|]. exact IHD.
  - assert (E : ∀ D', sum_list_with (λ k, occurrences k (x :: l)) D'
                      = sum_list_with (λ k, if decide (k = x) then 1 else 0) D'
                        + sum_list_with (λ k, occurrences k l) D').
    { intros D'. induction D' as [|k D' IHD']; [done|].
      cbn [sum_list_with]. rewrite IHD'.
      rewrite (occurrences_insert k x [] l). cbn [app]. lia. }
    rewrite E, sum_indicator, IH; [done| |done|].
    + intros y Hy. apply Hsub. by right.
    + apply Hsub. left.
Qed.

Lemma group_count_total (keys : list K) :
  sum_list_with snd (Store.group_count leb keys) = length keys.
Proof.
  unfold Store.group_count.
  assert (E : ∀ l, sum_list_with snd
                     (map (λ k, (k, length (filter (eq k) keys))) l)
                   = sum_list_with (λ k, occurrences k keys) l).
  { intros l. induction l as [|k l IH]; [done|]. cbn. by rewrite IH. }
  rewrite E, merge_sort_Permutation.
  apply sum_occurrences; [apply NoDup_remove_dups|].
  intros x. by rewrite elem_of_remove_dups.
Qed.


End GroupStructure.

Lemma occurrences_fmap {A} (f : A → string) (c : string) (l : list A) :
  occurrences c (f <$> l) = length (filter (λ r, f r = c) l).
Proof.
  unfold occurrences. induction l as [|r l IH]; [done|].
  rewrite fmap_cons, !filter_cons.
  destruct (decide (c = f r)) as [->|Hne].
  - rewrite decide_True by done. cbn. by rewrite IH.
  - rewrite decide_False by done. exact IH.
Qed.


Lemma rows_of_city_occurrences category io code table :
  occurrences code
    (Place.city <$> filter (λ r, Is_true (common_match category io r)) table)
  = length (rows_of_city category io code table).
Proof.
  rewrite occurrences_fmap. unfold rows_of_city.
  by rewrite list_filter_filter.
Qed.


Lemma city_codes_of_rows table rows :
  City.code <$> (city_row table <$> rows) = rows.*1.
Proof. rewrite <- list_fmap_compose. by apply list_fmap_ext. Qed.

Lemma city_counts_sum table rows :
  sum_list (City.count <$> (city_row table <$> rows)) = sum_list_with snd rows.
Proof. induction rows as [|[k n] rows IH]; [done|]. cbn. by rewrite IH. Qed.

(** X10. The aggregates of list-cities partition the matching rows: the codes
    are distinct and come in ascending byte order, and the counts add up
    to the number of rows that pass the freshness and category filters. *)
Theorem list_cities_partitions_the_matching_rows category io table :
  ∃ out,
    get_cities category io table = Ok out
    ∧ NoDup (City.code <$> out)
    ∧ StronglySorted string_le (City.code <$> out)
    ∧ sum_list (City.count <$> out)
      = length (filter (λ r, Is_true (common_match category io r)) table).
Proof.
  rewrite get_cities_closed. eexists. split; [done|].
  rewrite city_codes_of_rows, city_counts_sum.
  split; [apply group_count_NoDup|].
  split; [apply (group_count_sorted String.leb)|].
  by rewrite group_count_total, length_fmap.
Qed.

(** X11. The display name of a city does not depend on the filters of the
    request: two calls of list-cities on the same table, with any
    categories and any [include_outdated], name a code they both list the
    same way. *)
Theorem city_name_ignores_the_request_filters
    category1 io1 category2 io2 table out1 out2 a1 a2 :
  get_cities category1 io1 table = Ok out1 →
  get_cities category2 io2 table = Ok out2 →
  a1 ∈ out1 → a2 ∈ out2 → City.code a1 = City.code a2 →
  City.name a1 = City.name a2.
Proof.
  rewrite !get_cities_closed. intros [= <-] [= <-].
  intros ([c1 n1] & -> & _)%list_elem_of_fmap
         ([c2 n2] & -> & _)%list_elem_of_fmap.
  cbn. by intros ->.
Qed.

Lemma city_name_ignores_the_request_filters_witness :
  City.name {| City.code := "taipei"; City.name := "taipei"; City.count := 1 |}
  = City.name {| City.code := "taipei"; City.name := "taipei"; City.count := 2 |}.
Proof.
  apply (city_name_ignores_the_request_filters NoCategory false
           (CategoryList ["park"]) true [Sample.bare; Sample.outdated]
           [{| City.code := "taipei"; City.name := "taipei"; City.count := 1 |}]
           [{| City.code := "taipei"; City.name := "taipei"; City.count := 2 |}]);
    [reflexivity | reflexivity | left | left | reflexivity].
Defined.

(** ** The district breakdown *)










Lemma district_counts_bounded (rows : list (option string * nat)) :
  (sum_list (District.count <$> omap district_aggregate rows)
   ≤ sum_list_with snd rows)%nat.
Proof.
  induction rows as [|[k n] rows IH]; [done|].
  cbn [omap list_omap sum_list_with snd].
  destruct (district_aggregate (k, n)) as [a|] eqn:E; cbn.
  - apply district_aggregate_Some in E as (s & _ & _ & ->). cbn. lia.
  - lia.
Qed.

Lemma filter_length_mono {A} (P Q : A → Prop) `{∀ x, Decision (P x)}
    `{∀ x, Decision (Q x)} (l : list A) :
  (∀ x, P x → Q x) → (length (filter P l) ≤ length (filter Q l))%nat.
Proof.
  intros HPQ. induction l as [|x l IH]; [done|].
  rewrite !filter_cons. destruct (decide (P x)) as [HP|].
  - rewrite decide_True by auto. cbn. lia.
  - destruct (decide (Q x)); cbn; lia.
Qed.

(** X13. Under the same filters the counts of the district breakdown of a city
    never add up to more than the count list-cities gives for that city:
    the difference is the rows without a district or with an empty one. *)
Theorem district_counts_fit_in_the_city_count of_city category io table :
  of_city ≠ "" →
  ∃ res out,
    get_districts of_city category io table = Ok res
    ∧ get_cities category io table = Ok out
    ∧ (sum_list (District.count <$> districts res)
       ≤ city_count out of_city)%nat.
Proof.
  intros Hc. rewrite get_districts_closed, get_cities_closed by done.
  do 2 eexists. split; [done|]. split; [done|]. cbn [districts].
  etrans; [apply district_counts_bounded|].
  rewrite group_count_total, length_fmap.
  rewrite city_count_grouped, rows_of_city_occurrences. unfold rows_of_city.
  apply filter_length_mono. intros r. unfold districts_match.
  rewrite !andb_True, Is_true_true, String.eqb_eq. tauto.
Qed.

Lemma district_counts_fit_in_the_city_count_witness :
  ∃ res out,
    get_districts "taipei" NoCategory true
      [Sample.outdated; Sample.no_district; Sample.blank_district] = Ok res
    ∧ get_cities NoCategory true
        [Sample.outdated; Sample.no_district; Sample.blank_district] = Ok out
    ∧ (sum_list (District.count <$> districts res)
       ≤ city_count out "taipei")%nat.
Proof.
  apply (district_counts_fit_in_the_city_count "taipei" NoCategory true).
  discriminate.
Defined.

(** * Properties of the transport layer *)

(** ** The key check *)


(** ** The status of the answers *)







(** ** The loader *)

Section Chunks.

Context {A : Type}.
Implicit Types (items : list A) (m k : nat).

Lemma chunks_concat items m k :
  concat ((λ i, take m (drop i items)) <$> ((λ j, j * m)%nat <$> seq 0 k))
  = take (k * m)%nat items.
Proof.
  induction k as [|k IH]; [done|].
  rewrite seq_S, !fmap_app, concat_app, IH. cbn.
  rewrite app_nil_r, take_take_drop. f_equal. lia.
Qed.

Lemma range_count_covers (stop m : nat) :
  (0 < m → stop ≤ (if bool_decide (stop = 0) then 0 else (stop - 1) / m + 1) * m)%nat.
Proof.
  intros Hm. case_bool_decide; [lia|].
  pose proof (Nat.div_mod_eq (stop - 1) m).
  pose proof (Nat.mod_upper_bound (stop - 1) m). nia.
Qed.

Lemma range_count_bound (stop m j : nat) :
  (0 < m)%nat →
  (j < (if bool_decide (stop = 0) then 0 else (stop - 1) / m + 1))%nat →
  (j * m < stop)%nat.
Proof.
  intros Hm. case_bool_decide; [lia|]. intros Hj.
  pose proof (Nat.div_mod_eq (stop - 1) m). nia.
Qed.

End Chunks.

(** X17. With a positive batch size the generator yields the items in
    order and loses none: the batches concatenate to the input, no batch
    is empty or longer than the batch size, and every batch but the last
    is full. *)
Theorem chunked_splits_the_items_into_full_batches {A} (items : list A) (n : Z) :
  (0 < n)%Z →
  ∃ batches,
    Loader.chunked items n = Some batches
    ∧ concat batches = items
    ∧ ∀ j batch, batches !! j = Some batch →
        (0 < length batch ≤ Z.to_nat n)%nat
        ∧ (S j < length batches → length batch = Z.to_nat n)%nat.
Proof.
  intros Hn. unfold Loader.chunked, Loader.range.
  destruct (Z.eqb_spec n 0); [lia|]. destruct (Z.ltb_spec n 0); [lia|].
  set (m := Z.to_nat n). assert (0 < m)%nat as Hm by lia.
  set (count := if bool_decide (length items = 0%nat) then 0%nat
                else ((length items - 1) / m + 1)%nat).
  eexists. split; [reflexivity|]. split.
  - rewrite chunks_concat. apply take_ge.
    by apply range_count_covers.
  - intros j batch Hj. rewrite !list_lookup_fmap in Hj.
    destruct (seq 0 count !! j) as [i|] eqn:Hi; [|done].
    apply lookup_seq in Hi as [-> Hlt]. cbn in Hj. injection Hj as <-.
    rewrite length_take, length_drop, !length_fmap, length_seq.
    pose proof (range_count_bound (length items) m j Hm Hlt).
    split; [lia|]. intros Hnext.
    pose proof (range_count_bound (length items) m (S j) Hm Hnext). lia.
Qed.

Lemma chunked_splits_the_items_into_full_batches_witness :
  ∃ batches,
    Loader.chunked [1; 2; 3; 4; 5]%nat 2 = Some batches
    ∧ concat batches = [1; 2; 3; 4; 5]%nat
    ∧ ∀ j batch, batches !! j = Some batch →
        (0 < length batch ≤ Z.to_nat 2)%nat
        ∧ (S j < length batches → length batch = Z.to_nat 2)%nat.
Proof. apply (chunked_splits_the_items_into_full_batches [1; 2; 3; 4; 5]%nat 2). lia. Defined.

Lemma required_Some v s :
  Loader.required v = Some s ↔ v = Loader.VStr s ∧ s ≠ "".
Proof.
  destruct v as [| | | |t| |]; cbn; try (split; [done|intros [? _]; done]).
  destruct (String.eqb_spec t ""); cbn; split.
  - done.
  - intros [[= ->] ?]. done.
  - intros [= ->]. done.
  - intros [[= ->] _]. done.
Qed.

Lemma dict_get_str place key s :
  Loader.dict_get place key = Loader.VStr s → place !! key = Some (Loader.VStr s).
Proof.
  unfold Loader.dict_get. destruct (place !! key); cbn; [congruence|done].
Qed.

(** X18. A row the loader accepts carries the four required fields of its
    record unchanged, each a non-empty text, and a coordinate pair that
    [extract_lat_lng] resolved in full. *)
Theorem normalize_place_keeps_the_required_fields str place row :
  Loader.normalize_place str place = Loader.Returns (Some row) →
  (place !! "id" = Some (Loader.VStr (Loader.id row)) ∧ Loader.id row ≠ "")
  ∧ (place !! "name" = Some (Loader.VStr (Loader.name row))
     ∧ Loader.name row ≠ "")
  ∧ (place !! "category" = Some (Loader.VStr (Loader.category row))
     ∧ Loader.category row ≠ "")
  ∧ (place !! "city" = Some (Loader.VStr (Loader.city row))
     ∧ Loader.city row ≠ "")
  ∧ Loader.extract_lat_lng place
    = Loader.Returns (Some (Loader.lat row), Some (Loader.lng row)).
Proof.
  unfold Loader.normalize_place.
  destruct (Loader.required (Loader.dict_get place "id")) as [pid|] eqn:Hid;
    [|done].
  destruct (Loader.required (Loader.dict_get place "name")) as [name|] eqn:Hname;
    [|done].
  destruct (Loader.required (Loader.dict_get place "category"))
    as [category|] eqn:Hcat; [|done].
  destruct (Loader.required (Loader.dict_get place "city")) as [city|] eqn:Hcity;
    [|done].
  destruct (Loader.extract_lat_lng place) as [[[lat|] [lng|]]|]; cbn; try done.
  intros [= <-]. cbn.
  apply required_Some in Hid as [Hid ?], Hname as [Hname ?],
    Hcat as [Hcat ?], Hcity as [Hcity ?].
  by repeat split; try apply dict_get_str.
Qed.

Lemma normalize_place_keeps_the_required_fields_witness :
  Loader.extract_lat_lng
    {[ "id" := Loader.VStr "p1"; "name" := Loader.VStr "Park";
       "category" := Loader.VStr "park"; "city" := Loader.VStr "taipei";
       "location" := Loader.VDict {[ "lat" := Loader.VInt 25;
                                     "lng" := Loader.VStr " 121.5 " ]} ]}
  = Loader.Returns (Some (Finite 25), Some (Finite (243 # 2))).
Proof.
  refine (proj2 (proj2 (proj2 (proj2
    (normalize_place_keeps_the_required_fields (λ _, "") _
       {| Loader.id := "p1"; Loader.name := "Park"; Loader.address := None;
          Loader.category := "park"; Loader.city := "taipei";
          Loader.lat := Finite 25; Loader.lng := Finite (243 # 2);
          Loader.properties := ∅ |} _))))).
  vm_compute. reflexivity.
Defined.

(** X19. A record that lacks one of the four required fields, or holds
    there anything but a non-empty text, is skipped: the loader returns no
    row and raises nothing, whatever the rest of the record looks like. *)
Theorem normalize_place_skips_a_record_without_a_required_text
    str place key :
  key ∈ Loader.required_fields →
  Loader.required (Loader.dict_get place key) = None →
  Loader.normalize_place str place = Loader.Returns None.
Proof.
  intros Hkey Hnone. unfold Loader.normalize_place.
  destruct (Loader.required (Loader.dict_get place "id")) eqn:Hid; [|done].
  destruct (Loader.required (Loader.dict_get place "name")) eqn:Hname; [|done].
  destruct (Loader.required (Loader.dict_get place "category")) eqn:Hcat;
    [|done].
  destruct (Loader.required (Loader.dict_get place "city")) eqn:Hcity; [|done].
  unfold Loader.required_fields in Hkey.
  repeat (apply elem_of_cons in Hkey as [->|Hkey]; [congruence|]).
  by apply elem_of_nil in Hkey.
Qed.

Lemma normalize_place_skips_a_record_without_a_required_text_witness :
  Loader.normalize_place (λ _, "")
    {[ "id" := Loader.VStr "p1"; "name" := Loader.VInt 7;
       "category" := Loader.VStr "park"; "city" := Loader.VStr "taipei";
       "location" := Loader.VStr "nowhere" ]}
  = Loader.Returns None.
Proof.
  apply (normalize_place_skips_a_record_without_a_required_text _ _ "name").
  - unfold Loader.required_fields. set_solver.
  - vm_compute. reflexivity.
Defined.

(** X20. A record makes the loader raise only once its four required
    fields are in place, and then with the exception of the coordinate
    extraction. *)
Theorem normalize_place_raises_with_the_coordinates_only str place e :
  Loader.normalize_place str place = Loader.Raises e →
  Loader.extract_lat_lng place = Loader.Raises e
  ∧ Forall (λ key, is_Some (Loader.required (Loader.dict_get place key)))
      Loader.required_fields.
Proof.
  unfold Loader.normalize_place.
  destruct (Loader.required (Loader.dict_get place "id")) eqn:Hid; [|done].
  destruct (Loader.required (Loader.dict_get place "name")) eqn:Hname; [|done].
  destruct (Loader.required (Loader.dict_get place "category")) eqn:Hcat;
    [|done].
  destruct (Loader.required (Loader.dict_get place "city")) eqn:Hcity; [|done].
  destruct (Loader.extract_lat_lng place) as [[[lat|] [lng|]]|]; cbn; try done.
  intros [= <-]. split; [done|].
  unfold Loader.required_fields.
  repeat (constructor; [by eexists|]). constructor.
Qed.

Lemma normalize_place_raises_with_the_coordinates_only_witness :
  Loader.extract_lat_lng
    {[ "id" := Loader.VStr "p1"; "name" := Loader.VStr "Park";
       "category" := Loader.VStr "park"; "city" := Loader.VStr "taipei";
       "location" := Loader.VStr "nowhere" ]}
  = Loader.Raises Loader.AttributeError.
Proof.
  refine (proj1 (normalize_place_raises_with_the_coordinates_only
                   (λ _, "") _ _ _)).
  vm_compute. reflexivity.
Defined.

Lemma float_of_int_raises n e :
  Loader.float_of_int n = Loader.Raises e →
  e = Loader.OverflowError ∧ (2 ^ 1023 ≤ Z.abs n)%Z.
Proof.
  unfold Loader.float_of_int.
  destruct (PyFloat.binary64_of_ratio (Z.abs n) 1) eqn:H; try done.
  intros [= <-]. split; [done|].
  unfold PyFloat.binary64_of_ratio in H. cbv zeta in H.
  destruct (Z.eqb_spec (Z.abs n) 0) as [|Hpos]; [done|].
  change (Z.log2 1) with 0%Z in H. rewrite Z.sub_0_r in H.
  match type of H with
  | (if ?c then _ else _) = _ => destruct c eqn:Hc; [|done]
  end.
  assert (1023 ≤ Z.log2 (Z.abs n))%Z as Hlog.
  { match type of Hc with
    | context [if ?c then _ else _] => destruct c
    end;
    apply orb_true_iff in Hc as [Hc|Hc];
    try apply andb_true_iff in Hc as [Hc _]; lia. }
  pose proof (Z.log2_spec (Z.abs n) ltac:(lia)) as [Hle _].
  etrans; [|exact Hle]. apply Z.pow_le_mono_r; lia.
Qed.

(** X21. [coerce_float] raises for one kind of value only: an [int] too
    large for a binary64, with [OverflowError]. Text, whatever it holds,
    never makes it raise. *)
Theorem coerce_float_raises_on_a_huge_integer_only v e :
  Loader.coerce_float v = Loader.Raises e →
  e = Loader.OverflowError
  ∧ ∃ n, v = Loader.VInt n ∧ (2 ^ 1023 ≤ Z.abs n)%Z.
Proof.
  destruct v as [|b|n|f|s|l|d]; cbn; try done.
  - destruct (Loader.float_of_int n) eqn:Hn; cbn; [done|].
    intros [= <-]. apply float_of_int_raises in Hn as [-> ?]. eauto.
  - by destruct (String.eqb _ _).
Qed.

Lemma coerce_float_raises_on_a_huge_integer_only_witness :
  Loader.OverflowError = Loader.OverflowError
  ∧ ∃ n, Loader.VInt (- 2 ^ 1024) = Loader.VInt n ∧ (2 ^ 1023 ≤ Z.abs n)%Z.
Proof.
  apply (coerce_float_raises_on_a_huge_integer_only (Loader.VInt (- 2 ^ 1024))).
  vm_compute. reflexivity.
Defined.

(** X22. When [extract_lat_lng] returns, each coordinate is the one of the
    record's [location] if the location resolves it, and is missing only
    if neither the location nor the properties resolve it. *)
Theorem extract_lat_lng_prefers_the_location place lat lng :
  Loader.extract_lat_lng place = Loader.Returns (lat, lng) →
  (∀ x, Loader.coordinate place "location" "lat" = Loader.Returns (Some x) →
        lat = Some x)
  ∧ (∀ x, Loader.coordinate place "location" "lng" = Loader.Returns (Some x) →
          lng = Some x)
  ∧ (lat = None →
     Loader.coordinate place "location" "lat" = Loader.Returns None
     ∧ Loader.coordinate place "properties" "lat" = Loader.Returns None)
  ∧ (lng = None →
     Loader.coordinate place "location" "lng" = Loader.Returns None
     ∧ Loader.coordinate place "properties" "lng" = Loader.Returns None).
Proof.
  unfold Loader.extract_lat_lng.
  change (Loader.get (Loader.or_else (Loader.dict_get place ?s)
                        (Loader.VDict ∅)) ?k ≫= Loader.coerce_float)
    with (Loader.coordinate place s k).
  destruct (Loader.coordinate place "location" "lat") as [[a|]|]; cbn;
    [| |done];
    (destruct (Loader.coordinate place "location" "lng") as [[b|]|]; cbn;
     [| |done]);
    try (destruct (Loader.coordinate place "properties" "lat") as [a2|]; cbn;
         [|done];
         destruct (Loader.coordinate place "properties" "lng") as [b2|]; cbn;
         [|done]);
    intros [= <- <-]; repeat split; congruence.
Qed.

Lemma extract_lat_lng_prefers_the_location_witness :
  Loader.coordinate
    {[ "location" := Loader.VDict {[ "lat" := Loader.VInt 25 ]};
       "properties" := Loader.VDict {[ "lat" := Loader.VInt 24 ]} ]}
    "location" "lng" = Loader.Returns None
  ∧ Loader.coordinate
      {[ "location" := Loader.VDict {[ "lat" := Loader.VInt 25 ]};
         "properties" := Loader.VDict {[ "lat" := Loader.VInt 24 ]} ]}
      "properties" "lng" = Loader.Returns None.
Proof.
  refine (proj2 (proj2 (proj2
    (extract_lat_lng_prefers_the_location _ (Some (Finite 25)) None _)))
    eq_refl).
  vm_compute. reflexivity.
Defined.
